(** * Width units of Streetmix: parsing and formatting of street widths

    A shallow embedding of [assets/scripts/util/width_units.js].

    JavaScript strings are sequences of UTF-16 code units, modelled as lists
    of [N].  JavaScript numbers are modelled as exact rationals extended with
    [NaN] and the two infinities: the arithmetic of the source is kept, the
    rounding of binary64 is not (every operation is exact, there is no
    negative zero and no overflow).  Finite values are kept in lowest terms,
    so that equal numbers are equal terms.  The rounding that the program
    applies to the exact result of every operation is [binary64]; results
    about values are stated as the operations that the program performs, or
    with a tolerance, wherever the rounding would change an exact value. *)

From Stdlib Require Import Ascii String.
From Stdlib Require Import List Bool ZArith NArith QArith Qabs Qround Qpower.
From Stdlib Require Import Lia Lqa.
Import ListNotations.

(* ================================================================== *)
(** ** JavaScript strings *)

Module JSString.

Abbreviation jschar := N (only parsing).
Abbreviation jsstring := (list N) (only parsing).

(** An ASCII literal as a JavaScript string. *)
Definition js (s : string) : jsstring :=
  map N_of_ascii (list_ascii_of_string s).
Arguments js s%_string.

Definition SPACE : jschar := 32%N.
Definition QUOTE : jschar := 34%N.        (* the inches marker *)
Definition APOSTROPHE : jschar := 39%N.   (* the feet marker *)
Definition PLUS : jschar := 43%N.
Definition COMMA : jschar := 44%N.
Definition DASH : jschar := 45%N.
Definition PERIOD : jschar := 46%N.
Definition HAIR_SPACE : jschar := 8202%N. (* U+200A *)

Definition isDigit (c : jschar) : bool := ((48 <=? c) && (c <=? 57))%N.

(** LineTerminator code units: LF, CR, LS, PS. *)
Definition isLineTerminator (c : jschar) : bool :=
  existsb (N.eqb c) [10; 13; 8232; 8233]%N.

(** WhiteSpace and LineTerminator code units, as trimmed by [parseFloat]. *)
Definition isWhiteSpace (c : jschar) : bool :=
  existsb (N.eqb c) [9; 11; 12; 32; 160; 5760; 8239; 8287; 12288; 65279]%N
  || ((8192 <=? c) && (c <=? 8202))%N
  || isLineTerminator c.

(** [s.indexOf(c)] for a one-unit search string; [None] stands for -1. *)
Fixpoint indexOf (c : jschar) (s : jsstring) : option nat :=
  match s with
  | [] => None
  | x :: r => if (x =? c)%N then Some O else option_map S (indexOf c r)
  end.

Definition includes (c : jschar) (s : jsstring) : bool :=
  match indexOf c s with Some _ => true | None => false end.

(** [s.replace(/c/g, '')] *)
Definition removeAll (c : jschar) (s : jsstring) : jsstring :=
  filter (fun x => negb (x =? c)%N) s.

(** [s.replace(/c/g, d)] *)
Definition replaceAll (c d : jschar) (s : jsstring) : jsstring :=
  map (fun x => if (x =? c)%N then d else x) s.

(** [s.replace(new RegExp(c), r)]: without the [g] flag only the first
    occurrence is replaced. *)
Fixpoint replaceFirst (c : jschar) (r : jsstring) (s : jsstring) : jsstring :=
  match s with
  | [] => []
  | x :: t => if (x =? c)%N then r ++ t else x :: replaceFirst c r t
  end.

(** [s.split(c)]: one more part than there are separators. *)
Fixpoint split (c : jschar) (s : jsstring) : list jsstring :=
  match s with
  | [] => [[]]
  | x :: r =>
      if (x =? c)%N then [] :: split c r
      else match split c r with
           | [] => [[x]]
           | p :: ps => (x :: p) :: ps
           end
  end.

(** [s.substr(n)] *)
Definition substr (n : nat) (s : jsstring) : jsstring := skipn n s.

Fixpoint takeWhile (p : jschar -> bool) (s : jsstring) : jsstring :=
  match s with
  | [] => []
  | x :: r => if p x then x :: takeWhile p r else []
  end.

Fixpoint dropWhile (p : jschar -> bool) (s : jsstring) : jsstring :=
  match s with
  | [] => []
  | x :: r => if p x then dropWhile p r else s
  end.

Fixpoint startsWith (p s : jsstring) : bool :=
  match p, s with
  | [], _ => true
  | _ :: _, [] => false
  | a :: p', b :: s' => (a =? b)%N && startsWith p' s'
  end.

Definition eqb (a b : jsstring) : bool :=
  if list_eq_dec N.eq_dec a b then true else false.


End JSString.
Import JSString.

(* ================================================================== *)
(** ** JavaScript numbers *)

Module JSNumber.

Inductive number :=
| NaN
| Infinity (negative : bool)
| Fin (q : Q).

Definition ofZ (z : Z) : number := Fin (inject_Z z).

Definition isZero (q : Q) : bool := (Qnum q =? 0)%Z.
Definition isNegative (q : Q) : bool := (Qnum q <? 0)%Z.

(** ToBoolean on a number: [NaN] and zero are falsy. *)
Definition truthy (x : number) : bool :=
  match x with
  | NaN => false
  | Infinity _ => true
  | Fin q => negb (isZero q)
  end.

Definition neg (x : number) : number :=
  match x with
  | NaN => NaN
  | Infinity s => Infinity (negb s)
  | Fin q => Fin (Qred (- q))
  end.

Definition add (x y : number) : number :=
  match x, y with
  | NaN, _ | _, NaN => NaN
  | Infinity s, Infinity t => if Bool.eqb s t then Infinity s else NaN
  | Infinity s, Fin _ | Fin _, Infinity s => Infinity s
  | Fin a, Fin b => Fin (Qred (a + b))
  end.

Definition sub (x y : number) : number := add x (neg y).

Definition mul (x y : number) : number :=
  match x, y with
  | NaN, _ | _, NaN => NaN
  | Infinity s, Infinity t => Infinity (xorb s t)
  | Infinity s, Fin q | Fin q, Infinity s =>
      if isZero q then NaN else Infinity (xorb s (isNegative q))
  | Fin a, Fin b => Fin (Qred (a * b))
  end.

Definition div (x y : number) : number :=
  match x, y with
  | NaN, _ | _, NaN => NaN
  | Infinity _, Infinity _ => NaN
  | Infinity s, Fin q => Infinity (xorb s (isNegative q))
  | Fin _, Infinity _ => Fin 0
  | Fin a, Fin b =>
      if isZero b then (if isZero a then NaN else Infinity (isNegative a))
      else Fin (Qred (a / b))
  end.



(** [Math.floor] *)
Definition floor (x : number) : number :=
  match x with
  | Fin q => Fin (inject_Z (Qfloor q))
  | _ => x
  end.

(** [x >= 0] *)
Definition nonNegative (x : number) : Prop :=
  match x with
  | NaN => False
  | Infinity s => s = false
  | Fin q => (0 <= q)%Q
  end.

(** The value of a string of decimal digits. *)
Definition digitsValue (s : jsstring) : Z :=
  fold_left (fun acc c => (acc * 10 + (Z.of_N c - 48))%Z) s 0%Z.

(** ExponentPart: [e] or [E], an optional sign, at least one digit.  A
    malformed exponent is not part of the literal and counts for 0. *)
Definition exponentPart (s : jsstring) : Z :=
  match s with
  | [] => 0%Z
  | c :: r =>
      if ((c =? 101) || (c =? 69))%N then
        let '(negative, r') :=
          match r with
          | [] => (false, r)
          | d :: t => if (d =? PLUS)%N then (false, t)
                      else if (d =? DASH)%N then (true, t)
                      else (false, r)
          end in
        match takeWhile isDigit r' with
        | [] => 0%Z
        | ds => if negative then (- digitsValue ds)%Z else digitsValue ds
        end
      else 0%Z
  end.

(** The mathematical value of the longest StrUnsignedDecimalLiteral that is a
    prefix of [s]; [None] when there is none. *)
Definition unsignedLiteral (s : jsstring) : option number :=
  if startsWith (js "Infinity") s then Some (Infinity false)
  else
    let ip := takeWhile isDigit s in
    let r1 := dropWhile isDigit s in
    let '(fp, r2) :=
      match r1 with
      | [] => ([], r1)
      | c :: r => if (c =? PERIOD)%N
                  then (takeWhile isDigit r, dropWhile isDigit r)
                  else ([], r1)
      end in
    match ip ++ fp with
    | [] => None
    | ds =>
        Some (Fin (Qred (inject_Z (digitsValue ds)
                         * Qpower 10 (exponentPart r2 - Z.of_nat (length fp)))))
    end.

(** [Number.parseFloat]: leading white space is skipped, then the longest
    prefix that is a decimal literal is read; [NaN] when there is none.  The
    value is the exact value of the numeral: the program has its [binary64],
    which is infinite for a long numeral and zero for a small one. *)
Definition parseFloat (s : jsstring) : number :=
  let t := dropWhile isWhiteSpace s in
  let '(negative, u) :=
    match t with
    | [] => (false, t)
    | c :: r => if (c =? PLUS)%N then (false, r)
                else if (c =? DASH)%N then (true, r)
                else (false, t)
    end in
  match unsignedLiteral u with
  | None => NaN
  | Some x => if negative then neg x else x
  end.

(** Decimal digits of a natural number, most significant first. *)
Fixpoint digitsFuel (fuel : nat) (n : N) : jsstring :=
  match fuel with
  | O => []
  | S f => if (n <? 10)%N then [(48 + n)%N]
           else digitsFuel f (n / 10) ++ [(48 + n mod 10)%N]
  end.

Definition digits (n : N) : jsstring :=
  digitsFuel (S (N.to_nat (N.log2 n))) n.

Fixpoint stripTrailingZeros (fuel : nat) (s : N) : N :=
  match fuel with
  | O => s
  | S f => if ((s mod 10 =? 0) && negb (s =? 0))%N
           then stripTrailingZeros f (s / 10) else s
  end.

(** The least [z] with [a * 10 ^ (z + 1) >= b], searched upwards. *)
Fixpoint leadingZeros (fuel : nat) (a b : Z) (z : Z) : Z :=
  match fuel with
  | O => z
  | S f => if (b <=? a * 10)%Z then z else leadingZeros f (a * 10)%Z b (z + 1)%Z
  end.

(** Nearest integer to [a / b], ties upwards; [0 < b]. *)
Definition roundDiv (a b : Z) : Z := ((2 * a + b) / (2 * b))%Z.

(** The decimal exponent [n] with [10^(n-1) <= q < 10^n], for [0 < q]. *)
Definition decimalExponent (q : Q) : Z :=
  let a := Qnum q in
  let b := Zpos (Qden q) in
  if (b <=? a)%Z then Z.of_nat (length (digits (Z.to_N (a / b))))
  else (- leadingZeros (S (Z.to_nat (Z.log2 b))) a b 0)%Z.

(** [q] scaled to an integer: the nearest integer to [q * 10^e]. *)
Definition scaled (q : Q) (e : Z) : Z :=
  if (0 <=? e)%Z then roundDiv (Qnum q * 10 ^ e) (Zpos (Qden q))
  else roundDiv (Qnum q) (Zpos (Qden q) * 10 ^ (- e)).

(** The significant digits [s] and the exponent [n] of a positive number:
    [q] is [0.s * 10^n] to 17 significant digits, [s] without trailing zeros.
    For a double these are the shortest digits that identify it; for an
    exact rational they are the value rounded to 17 significant digits. *)
Definition significand (q : Q) : N * Z :=
  let n := decimalExponent q in
  let s := scaled q (17 - n) in
  let '(s, n) := if (10 ^ 17 <=? s)%Z then (s / 10, n + 1)%Z else (s, n) in
  (stripTrailingZeros 17 (Z.to_N s), n).

Definition zeros (n : Z) : jsstring := repeat 48%N (Z.to_nat n).

(** Number::toString for a positive number with digits [ds] and exponent [n]. *)
Definition render (ds : jsstring) (n : Z) : jsstring :=
  let k := Z.of_nat (length ds) in
  if ((k <=? n) && (n <=? 21))%Z then ds ++ zeros (n - k)
  else if ((0 <? n) && (n <=? 21))%Z then
    firstn (Z.to_nat n) ds ++ [PERIOD] ++ skipn (Z.to_nat n) ds
  else if ((-6 <? n) && (n <=? 0))%Z then
    [48%N; PERIOD] ++ zeros (- n) ++ ds
  else
    let e := (n - 1)%Z in
    let exponent := [101%N; if (e <? 0)%Z then DASH else PLUS]
                    ++ digits (Z.to_N (Z.abs e)) in
    match ds with
    | [] => exponent
    | [d] => d :: exponent
    | d :: rest => d :: PERIOD :: rest ++ exponent
    end.

Definition toStringPositive (q : Q) : jsstring :=
  let '(s, n) := significand q in render (digits s) n.

(** [Number.prototype.toString] *)
Definition toString (x : number) : jsstring :=
  match x with
  | NaN => js "NaN"
  | Infinity s => if s then js "-Infinity" else js "Infinity"
  | Fin q =>
      if isZero q then js "0"
      else if isNegative q then DASH :: toStringPositive (Qopp q)
      else toStringPositive q
  end.

(** [s] with zeros in front, up to the length [n]. *)
Definition padLeft (n : nat) (s : jsstring) : jsstring :=
  repeat 48%N (n - length s) ++ s.

(** [Number.prototype.toFixed(f)]: below 10^21 in magnitude a sign, the
    integer digits and [f] fraction digits of the value rounded to [f]
    places, ties away from zero; else as [toString]. *)
Definition toFixed (f : nat) (x : number) : jsstring :=
  match x with
  | Fin q =>
      if Qle_bool (inject_Z (10 ^ 21)) (Qabs q) then toString x
      else
        let n := Z.to_N (scaled (Qabs q) (Z.of_nat f)) in
        let m := padLeft (S f) (digits n) in
        let k := (length m - f)%nat in
        (if isNegative q then [DASH] else [])
          ++ firstn k m ++ (match f with O => [] | _ => PERIOD :: skipn k m end)
  | _ => toString x
  end.

(** ToNumber on a string holding a decimal literal: white space is trimmed on
    both sides and the whole of the rest has to be the literal.  The literals
    of the other radixes are not produced by [toFixed] and read as [NaN]. *)
Definition literalLength (s : jsstring) : nat :=
  if startsWith (js "Infinity") s then 8%nat
  else
    let ip := takeWhile isDigit s in
    let r1 := dropWhile isDigit s in
    let '(dot, fp, r2) :=
      match r1 with
      | [] => (0%nat, [], r1)
      | c :: r => if (c =? PERIOD)%N
                  then (1%nat, takeWhile isDigit r, dropWhile isDigit r)
                  else (0%nat, [], r1)
      end in
    let ex :=
      match r2 with
      | [] => 0%nat
      | c :: r =>
          if ((c =? 101) || (c =? 69))%N then
            let '(sg, r') :=
              match r with
              | [] => (0%nat, r)
              | d :: t => if ((d =? PLUS) || (d =? DASH))%N then (1%nat, t)
                          else (0%nat, r)
              end in
            match takeWhile isDigit r' with
            | [] => 0%nat
            | ds => (1 + sg + length ds)%nat
            end
          else 0%nat
      end in
    (length ip + dot + length fp + ex)%nat.

Definition ofString (s : jsstring) : number :=
  let t := rev (dropWhile isWhiteSpace (rev (dropWhile isWhiteSpace s))) in
  match t with
  | [] => Fin 0
  | c :: r =>
      let u := if ((c =? PLUS) || (c =? DASH))%N then r else t in
      if (literalLength u =? length u)%nat then parseFloat t else NaN
  end.

End JSNumber.
Import JSNumber.

(* ================================================================== *)
(** ** Locale-sensitive number formatting *)

Module Intl.

(** Modelled from the spec: the locale is read from the application store,
    which is outside this file; it is "used purely to drive
    decimal-separator and grouping rules in numeric formatting".  A locale is
    taken as its two separators; digits are ASCII, and the integer digits
    are grouped by three from the fourth digit on, as they are for en-US.
    Locales that group otherwise (two digits in en-IN, no group in a number
    of four digits in es) are not described by this record: where the
    digits of a formatted number matter, what is stated for every locale
    concerns numbers below 1000, and grouped numbers are considered for
    [en_US] only. *)
Record Locale := {
  decimalSeparator : jschar;
  groupSeparator : jschar
}.

Definition en_US : Locale :=
  {| decimalSeparator := PERIOD; groupSeparator := COMMA |}.

Definition INFINITY_SIGN : jschar := 8734%N.

(** Digits, least significant first, with a separator after every third
    digit that has a successor. *)
Fixpoint groupRev (sep : jschar) (s : jsstring) : jsstring :=
  match s with
  | a :: b :: c :: r =>
      match r with
      | [] => s
      | _ :: _ => a :: b :: c :: sep :: groupRev sep r
      end
  | _ => s
  end.

Definition group (sep : jschar) (ds : jsstring) : jsstring :=
  rev (groupRev sep (rev ds)).

Definition stripZeros (s : jsstring) : jsstring :=
  rev (dropWhile (N.eqb 48) (rev s)).

(** [new Intl.NumberFormat(locale, { style: 'decimal',
    maximumFractionDigits: f }).format(x)]: the magnitude rounded to [f]
    fraction digits, ties away from zero, grouped integer digits, no trailing
    zeros in the fraction. *)
Definition format (l : Locale) (f : nat) (x : number) : jsstring :=
  match x with
  | NaN => js "NaN"
  | Infinity s => (if s then [DASH] else []) ++ [INFINITY_SIGN]
  | Fin q =>
      let n := Z.to_N (scaled (Qabs q) (Z.of_nat f)) in
      let ip := (n / 10 ^ N.of_nat f)%N in
      let fp := (n mod 10 ^ N.of_nat f)%N in
      let fraction := stripZeros (padLeft f (digits fp)) in
      (if isNegative q then [DASH] else [])
        ++ group (groupSeparator l) (digits ip)
        ++ match fraction with
           | [] => []
           | _ :: _ => decimalSeparator l :: fraction
           end
  end.

End Intl.
Import Intl.

(* ================================================================== *)
(** ** assets/scripts/util/width_units.js *)

Inductive value :=
| Undefined
| Str (s : jsstring)
| Num (n : number).

(** The outcome of a call: a returned value or a thrown exception. *)
Inductive completion :=
| Return (v : value)
| Throw.

(** [v.toString()] on a string or a number. *)
Definition valueToString (v : value) : jsstring :=
  match v with
  | Undefined => []
  | Str s => s
  | Num n => toString n
  end.

(** [array.reduce(f)] without an initial value: a TypeError on an empty
    array, else the fold from the first element. *)
Definition reduce (f : value -> jsstring -> value) (a : list jsstring) : completion :=
  match a with
  | [] => Throw
  | x :: r => Return (fold_left f r (Str x))
  end.

(** Modelled from the spec: the two constants of [users/localization], which
    is outside this file; the unit system is "a numeric enumeration value",
    "an enumeration of exactly two values".  The units argument of the
    functions below is [None] when it is undefined. *)
Definition SETTINGS_UNITS_IMPERIAL : Z := 1.
Definition SETTINGS_UNITS_METRIC : Z := 2.

Definition unitsIs (units : option Z) (u : Z) : bool :=
  match units with
  | Some z => (z =? u)%Z
  | None => false
  end.

(** [!units] is false for a number other than 0. *)
Definition unitsTruthy (units : option Z) : bool :=
  match units with
  | Some z => negb (z =? 0)%Z
  | None => false
  end.

(** [!widthInput] is false for a string that is not empty. *)
Definition inputTruthy (widthInput : option jsstring) : bool :=
  match widthInput with
  | Some (_ :: _) => true
  | _ => false
  end.

Definition IMPERIAL_METRIC_MULTIPLIER : number := div (ofZ 30) (ofZ 100).
Definition METRIC_PRECISION : nat := 3.
Definition IMPERIAL_PRECISION : nat := 3.

Record conversion := {
  text : jsstring;
  multiplier : number
}.

Definition WIDTH_INPUT_CONVERSION : list conversion :=
  [ {| text := js "m"; multiplier := div (ofZ 1) IMPERIAL_METRIC_MULTIPLIER |};
    {| text := js "cm";
       multiplier := div (div (ofZ 1) (ofZ 100)) IMPERIAL_METRIC_MULTIPLIER |};
    {| text := [QUOTE]; multiplier := div (ofZ 1) (ofZ 12) |};
    {| text := js "in"; multiplier := div (ofZ 1) (ofZ 12) |};
    {| text := js "in."; multiplier := div (ofZ 1) (ofZ 12) |};
    {| text := js "inch"; multiplier := div (ofZ 1) (ofZ 12) |};
    {| text := js "inches"; multiplier := div (ofZ 1) (ofZ 12) |};
    {| text := [APOSTROPHE]; multiplier := ofZ 1 |};
    {| text := js "ft"; multiplier := ofZ 1 |};
    {| text := js "ft."; multiplier := ofZ 1 |};
    {| text := js "feet"; multiplier := ofZ 1 |} ].

(** The glyphs are strings of one code unit:
    U+215B, U+00BC, U+215C, U+00BD, U+215D, U+00BE, U+215E. *)
Definition IMPERIAL_VULGAR_FRACTIONS : list (jsstring * jschar) :=
  [ (js ".125", 8539%N);
    (js ".25", 188%N);
    (js ".375", 8540%N);
    (js ".5", 189%N);
    (js ".625", 8541%N);
    (js ".75", 190%N);
    (js ".875", 8542%N) ].

(** [IMPERIAL_VULGAR_FRACTIONS[key]] *)
Fixpoint lookup (key : jsstring) (table : list (jsstring * jschar)) : option jschar :=
  match table with
  | [] => None
  | (k, g) :: r => if JSString.eqb k key then Some g else lookup key r
  end.

(** The regular expression ['[\\d\\.]' + text + '$'].  Every atom takes one
    code unit; a period in [text] is the wildcard of the expression. *)
Inductive atom :=
| DigitOrPeriod
| AnyChar
| Literal (c : jschar).

Definition atomOf (c : jschar) : atom :=
  if (c =? PERIOD)%N then AnyChar else Literal c.

Definition unitPattern (text : jsstring) : list atom :=
  DigitOrPeriod :: map atomOf text.

Definition matchAtom (a : atom) (c : jschar) : bool :=
  match a with
  | DigitOrPeriod => isDigit c || (c =? PERIOD)%N
  | AnyChar => negb (isLineTerminator c)
  | Literal d => (c =? d)%N
  end.

Fixpoint matchAll (p : list atom) (s : jsstring) : bool :=
  match p, s with
  | [], [] => true
  | a :: p', c :: s' => matchAtom a c && matchAll p' s'
  | _, _ => false
  end.

(** [s.match(p)] for a pattern anchored at the end of [s]. *)
Definition matchesAtEnd (p : list atom) (s : jsstring) : bool :=
  (length p <=? length s)%nat && matchAll p (skipn (length s - length p) s).

(** The first entry of the table whose pattern matches, as the loop with
    [break] finds it. *)
Definition findConversion (widthInput : jsstring) : option conversion :=
  find (fun c => matchesAtEnd (unitPattern (text c)) widthInput)
       WIDTH_INPUT_CONVERSION.

Definition parseStringForUnits (widthInput : jsstring) (units : option Z) : number :=
  let widthInput :=
    if includes DASH widthInput then removeAll DASH widthInput else widthInput in
  let width := parseFloat widthInput in
  if truthy width then
    let multiplier :=
      if unitsIs units SETTINGS_UNITS_METRIC
      then div (ofZ 1) IMPERIAL_METRIC_MULTIPLIER
      else ofZ 1 in
    let multiplier :=
      match findConversion widthInput with
      | Some {| multiplier := m |} => m
      | None => multiplier
      end in
    mul width multiplier
  else ofZ 0.

(** The loop over the glyphs of the table. *)
Definition substituteFractions (widthInput : jsstring) : jsstring :=
  fold_left
    (fun w e => if includes (snd e) w then replaceFirst (snd e) (fst e) w else w)
    IMPERIAL_VULGAR_FRACTIONS widthInput.

(** The normalisation of the input before it is parsed. *)
Definition normalize (widthInput : jsstring) : jsstring :=
  substituteFractions (replaceAll COMMA PERIOD (removeAll SPACE widthInput)).

(** The callback of [reduce]. *)
Definition addPart (units : option Z) (prev : value) (cur : jsstring) : value :=
  let cur := if includes QUOTE cur then cur else cur ++ [QUOTE] in
  Num (add (parseStringForUnits (valueToString prev) None)
           (parseStringForUnits cur units)).

(** The feet marker occurs, and its first occurrence is not the last
    character. *)
Definition isCompound (widthInput : jsstring) : bool :=
  match indexOf APOSTROPHE widthInput with
  | Some i => (i + 1 <? length widthInput)%nat
  | None => false
  end.

Definition processWidthInput (widthInput : option jsstring) (units : option Z)
  : completion :=
  match widthInput with
  | None => Return Undefined
  | Some input =>
      if negb (inputTruthy widthInput) || negb (unitsTruthy units)
      then Return Undefined
      else
        let widthInput := normalize input in
        if isCompound widthInput then
          let parts := split APOSTROPHE widthInput in
          let parts :=
            match parts with
            | [] => []
            | p :: ps => (p ++ [APOSTROPHE]) :: ps
            end in
          reduce (addPart units) parts
        else Return (Num (parseStringForUnits widthInput units))
  end.

(** The product is exact here; the program rounds it to binary64 before
    [toFixed] reads it, so that a product on the boundary of two thousandths
    may be written with the neighbouring thousandth. *)
Definition convertImperialMeasurementToMetric (value : number) : jsstring :=
  toFixed METRIC_PRECISION (mul value IMPERIAL_METRIC_MULTIPLIER).

Definition stringifyMeasurementValue (locale : Locale) (value : number)
  (units : option Z) : jsstring :=
  if negb (truthy value) then js "0"
  else if unitsIs units SETTINGS_UNITS_IMPERIAL
  then format locale IMPERIAL_PRECISION value
  else
    let convertedValue := convertImperialMeasurementToMetric value in
    format locale METRIC_PRECISION (ofString convertedValue).

Definition getImperialMeasurementWithVulgarFractions (locale : Locale)
  (value : number) : jsstring :=
  let remainder := sub value (floor value) in
  let fraction := lookup (substr 1 (toString remainder)) IMPERIAL_VULGAR_FRACTIONS in
  match fraction with
  | Some glyph =>
      if truthy (floor value)
      then stringifyMeasurementValue locale (floor value)
             (Some SETTINGS_UNITS_IMPERIAL) ++ [glyph]
      else [glyph]
  | None =>
      stringifyMeasurementValue locale value (Some SETTINGS_UNITS_IMPERIAL)
  end.

Definition WBR : jsstring := js "<wbr>".

Definition prettifyWidth (locale : Locale) (width : number) (units : option Z)
  (markup : bool) : jsstring :=
  if unitsIs units SETTINGS_UNITS_IMPERIAL then
    let widthText := getImperialMeasurementWithVulgarFractions locale width in
    let widthText := if markup then widthText ++ WBR else widthText in
    widthText ++ [APOSTROPHE]
  else
    let widthText :=
      stringifyMeasurementValue locale width (Some SETTINGS_UNITS_METRIC) in
    let widthText :=
      if markup then widthText ++ WBR ++ [HAIR_SPACE] else widthText in
    widthText ++ HAIR_SPACE :: js "m".

(** The two unit systems as they are passed to the functions. *)
Definition IMPERIAL : option Z := Some SETTINGS_UNITS_IMPERIAL.
Definition METRIC : option Z := Some SETTINGS_UNITS_METRIC.

(** [|r - v| <= 1/8] for two finite numbers. *)
Definition withinEighth (v r : number) : Prop :=
  match v, r with
  | Fin a, Fin b => (Qabs (b - a) <= 1 # 8)%Q
  | _, _ => False
  end.

(** A finite number above zero. *)
Definition positive_number (x : number) : Prop :=
  exists q, x = Fin q /\ (0 < q)%Q.

(** The code units of a formatted number: digits, the two separators of
    the locale, the minus sign, the letters of NaN, the infinity sign and the
    glyphs of the vulgar fractions. *)
Definition textChar (l : Locale) (c : jschar) : bool :=
  isDigit c
  || (c =? decimalSeparator l)%N
  || (c =? groupSeparator l)%N
  || existsb (N.eqb c)
       (DASH :: 78%N :: 97%N :: INFINITY_SIGN
          :: map snd IMPERIAL_VULGAR_FRACTIONS).

(** The text before the unit of the output of [prettifyWidth]. *)
Definition numericText (locale : Locale) (width : number) (units : option Z)
  : jsstring :=
  if unitsIs units SETTINGS_UNITS_IMPERIAL
  then getImperialMeasurementWithVulgarFractions locale width
  else stringifyMeasurementValue locale width METRIC.

(** Integer digits [ip] and fraction digits [fp] written as a decimal: the
    period is left out when there is no fraction digit. *)
Definition decimalText (ip fp : jsstring) : jsstring :=
  ip ++ match fp with
        | [] => []
        | _ :: _ => PERIOD :: fp
        end.

(** The code units of a normalised decimal with its feet marker. *)
Definition plain (c : jschar) : bool :=
  isDigit c || (c =? PERIOD)%N || (c =? APOSTROPHE)%N.

(** The number that a key of the table of vulgar fractions denotes. *)
Definition keyValue (key : jsstring) : Q :=
  inject_Z (digitsValue (tl key)) / inject_Z (10 ^ Z.of_nat (length (tl key))).

(** What may follow a decimal without being read as part of it: nothing, or
    a code unit that is no digit, no period and no exponent letter. *)
Definition terminator (rest : jsstring) : bool :=
  match rest with
  | [] => true
  | c :: _ => negb (isDigit c || (c =? PERIOD) || (c =? 101) || (c =? 69))%N
  end.

(** The code units that the normalisation of the input leaves alone. *)
Definition inert (c : jschar) : bool :=
  negb ((c =? SPACE)%N || (c =? COMMA)%N
        || existsb (N.eqb c) (map snd IMPERIAL_VULGAR_FRACTIONS)).

(** [|r - v| <= 1/500] for two finite numbers: the rounding of three metric
    fraction digits, which is 1/600 in exact arithmetic, with room for the
    rounding of binary64. *)
Definition withinMetricRounding (v r : number) : Prop :=
  match v, r with
  | Fin a, Fin b => (Qabs (b - a) <= 1 # 500)%Q
  | _, _ => False
  end.

(** A pattern read from its first atom against the first code units of a
    string; [matchesAtEnd] is this reading of the reversed pattern against
    the reversed string. *)
Fixpoint matchPrefix (p : list atom) (s : jsstring) : bool :=
  match p, s with
  | [], _ => true
  | a :: p', c :: s' => matchAtom a c && matchPrefix p' s'
  | _ :: _, [] => false
  end.

(** The number that the integer digits [ip] and the fraction digits [fp]
    denote. *)
Definition decimalValue (ip fp : jsstring) : Q :=
  inject_Z (digitsValue (ip ++ fp)) * Qpower 10 (0 - Z.of_nat (length fp)).

(** The same finite value. *)
Definition sameValue (v r : number) : Prop :=
  match v, r with
  | Fin a, Fin b => (b == a)%Q
  | _, _ => False
  end.

(* ================================================================== *)
(** ** Strings: basic facts *)

Section StringFacts.

Variable c : jschar.

Lemma includes_false_iff (s : jsstring) :
  includes c s = false <-> ~ In c s.
Proof.
  unfold includes. induction s as [|x r IH]; simpl.
  - split; [intros _ [] | reflexivity].
  - destruct (N.eqb_spec x c) as [->|Hne].
    + split; [discriminate | intros H; exfalso; apply H; now left].
    + destruct (indexOf c r); simpl in *.
      * split; [discriminate|]. intros H. exfalso.
        assert (Hin : ~ In c r) by (intros ?; apply H; now right).
        apply IH in Hin. discriminate.
      * split; [|reflexivity]. intros _ [Heq|Hin]; [congruence|].
        now apply (proj1 IH).
Qed.

Lemma includes_true_iff (s : jsstring) :
  includes c s = true <-> In c s.
Proof.
  destruct (includes c s) eqn:E.
  - split; [intros _|reflexivity].
    destruct (in_dec N.eq_dec c s) as [H|H]; [assumption|].
    apply includes_false_iff in H. congruence.
  - apply includes_false_iff in E. split; [discriminate | contradiction].
Qed.

Lemma removeAll_absent (s : jsstring) :
  includes c s = false -> removeAll c s = s.
Proof.
  rewrite includes_false_iff. unfold removeAll.
  induction s as [|x r IH]; simpl; intros H; [reflexivity|].
  destruct (N.eqb_spec x c) as [->|Hne]; simpl.
  - exfalso. apply H. now left.
  - f_equal. apply IH. intros ?. apply H. now right.
Qed.

Lemma removeAll_includes (s : jsstring) :
  includes c (removeAll c s) = false.
Proof.
  apply includes_false_iff. unfold removeAll. intros H.
  apply filter_In in H. destruct H as [_ H].
  rewrite N.eqb_refl in H. discriminate.
Qed.

Lemma replaceFirst_absent (r s : jsstring) :
  includes c s = false -> replaceFirst c r s = s.
Proof.
  rewrite includes_false_iff.
  induction s as [|x t IH]; simpl; intros H; [reflexivity|].
  destruct (N.eqb_spec x c) as [->|Hne].
  - exfalso. apply H. now left.
  - f_equal. apply IH. intros ?. apply H. now right.
Qed.

Lemma indexOf_app_fresh (f r : jsstring) :
  includes c f = false -> indexOf c (f ++ c :: r) = Some (length f).
Proof.
  rewrite includes_false_iff.
  induction f as [|x t IH]; simpl; intros H.
  - now rewrite N.eqb_refl.
  - destruct (N.eqb_spec x c) as [->|Hne].
    + exfalso. apply H. now left.
    + rewrite IH; [reflexivity|]. intros ?. apply H. now right.
Qed.

Lemma split_absent (s : jsstring) :
  includes c s = false -> split c s = [s].
Proof.
  rewrite includes_false_iff.
  induction s as [|x t IH]; simpl; intros H; [reflexivity|].
  destruct (N.eqb_spec x c) as [->|Hne].
  - exfalso. apply H. now left.
  - rewrite IH; [reflexivity|]. intros ?. apply H. now right.
Qed.

Lemma split_app_fresh (f r : jsstring) :
  includes c f = false -> split c (f ++ c :: r) = f :: split c r.
Proof.
  rewrite includes_false_iff.
  induction f as [|x t IH]; simpl; intros H.
  - now rewrite N.eqb_refl.
  - destruct (N.eqb_spec x c) as [->|Hne].
    + exfalso. apply H. now left.
    + rewrite IH; [reflexivity|]. intros ?. apply H. now right.
Qed.

Lemma split_cons (s : jsstring) :
  exists p ps, split c s = p :: ps.
Proof.
  induction s as [|x t [p [ps IH]]]; simpl.
  - now exists [], [].
  - destruct (x =? c)%N; [now exists [], (split c t)|].
    rewrite IH. now exists (x :: p), ps.
Qed.

Lemma split_present (s : jsstring) (i : nat) :
  indexOf c s = Some i -> exists p q qs, split c s = p :: q :: qs.
Proof.
  revert i. induction s as [|x t IH]; simpl; intros i H; [discriminate|].
  destruct (x =? c)%N.
  - destruct (split_cons t) as [q [qs E]]. exists [], q, qs. now rewrite E.
  - destruct (indexOf c t) as [j|]; [|discriminate].
    destruct (IH j eq_refl) as [p [q [qs E]]].
    rewrite E. now exists (x :: p), q, qs.
Qed.

End StringFacts.

Lemma removeAll_replaceAll (a x y : jschar) (s : jsstring) :
  x <> a -> y <> a ->
  removeAll a (replaceAll x y s) = replaceAll x y (removeAll a s).
Proof.
  intros Hx Hy. unfold removeAll, replaceAll.
  induction s as [|h t IH]; simpl; [reflexivity|].
  destruct (N.eqb_spec h x) as [->|Hhx].
  - destruct (N.eqb_spec y a) as [|_]; [contradiction|].
    destruct (N.eqb_spec x a) as [|_]; [contradiction|].
    simpl. rewrite N.eqb_refl. now f_equal.
  - destruct (N.eqb_spec h a) as [->|Hha]; simpl; [assumption|].
    destruct (N.eqb_spec h x) as [|_]; [contradiction|]. now f_equal.
Qed.

Lemma replaceAll_idempotent (x y : jschar) (s : jsstring) :
  x <> y -> replaceAll x y (replaceAll x y s) = replaceAll x y s.
Proof.
  intros Hxy. unfold replaceAll. rewrite map_map. apply map_ext. intros h.
  destruct (N.eqb_spec h x) as [->|Hhx].
  - destruct (N.eqb_spec y x); congruence.
  - destruct (N.eqb_spec h x); congruence.
Qed.

(* ================================================================== *)
(** ** The parser: structure of the result *)

Lemma strip_dashes (w : jsstring) :
  (if includes DASH w then removeAll DASH w else w) = removeAll DASH w.
Proof.
  destruct (includes DASH w) eqn:E; [reflexivity|].
  symmetry. now apply removeAll_absent.
Qed.

Lemma addPart_number (units : option Z) (prev : value) (cur : jsstring) :
  exists n, addPart units prev cur = Num n.
Proof. unfold addPart. eexists. reflexivity. Qed.

Lemma fold_addPart_number (units : option Z) (r : list jsstring) (n : number) :
  exists m, fold_left (addPart units) r (Num n) = Num m.
Proof.
  revert n. induction r as [|x t IH]; simpl; intros n.
  - now exists n.
  - destruct (addPart_number units (Num n) x) as [m ->]. apply IH.
Qed.

Lemma reduce_number (units : option Z) (p q : jsstring) (qs : list jsstring) :
  exists m, reduce (addPart units) (p :: q :: qs) = Return (Num m).
Proof.
  simpl. destruct (addPart_number units (Str p) q) as [n ->].
  destruct (fold_addPart_number units qs n) as [m ->]. now exists m.
Qed.

(** With both arguments given, the call returns a number. *)
Lemma processWidthInput_number (input : jsstring) (units : option Z) :
  inputTruthy (Some input) = true -> unitsTruthy units = true ->
  exists n, processWidthInput (Some input) units = Return (Num n).
Proof.
  intros Hi Hu. unfold processWidthInput, isCompound. rewrite Hi, Hu. simpl.
  destruct (indexOf APOSTROPHE (normalize input)) as [i|] eqn:E.
  - destruct (i + 1 <? length (normalize input))%nat.
    + destruct (split_present _ _ _ E) as [p [q [qs ->]]].
      apply reduce_number.
    + eexists. reflexivity.
  - eexists. reflexivity.
Qed.

(* ================================================================== *)
(** ** Trivial arguments *)

(** C3: [processWidthInput] returns undefined exactly when an argument is
    missing: for every unit system an undefined or empty input gives
    undefined, for every input an undefined or zero unit system gives
    undefined, and in every other case the result is not undefined. *)
Theorem processWidthInput_undefined :
  (forall units, processWidthInput None units = Return Undefined
                 /\ processWidthInput (Some []) units = Return Undefined)
  /\ (forall widthInput,
        processWidthInput widthInput None = Return Undefined
        /\ processWidthInput widthInput (Some 0%Z) = Return Undefined)
  /\ (forall widthInput units,
        processWidthInput widthInput units = Return Undefined
        <-> inputTruthy widthInput = false \/ unitsTruthy units = false).
Proof.
  split; [|split].
  - intros units. split; reflexivity.
  - intros [input|]; simpl; [|split; reflexivity].
    rewrite !orb_true_r. split; reflexivity.
  - intros [input|] units; simpl.
    + destruct input as [|c r]; simpl.
      * split; [now left | reflexivity].
      * destruct (unitsTruthy units) eqn:Hu; simpl.
        -- destruct (processWidthInput_number (c :: r) units eq_refl Hu)
             as [n Hn].
           unfold processWidthInput in Hn. simpl in Hn. rewrite Hu in Hn.
           simpl in Hn. rewrite Hn.
           split; [discriminate | intros [H|H]; discriminate].
        -- split; [now right | reflexivity].
    + split; [now left | reflexivity].
Qed.

(* ================================================================== *)
(** ** Tokens without a number *)






(* ================================================================== *)
(** ** Comma decimals *)

Lemma normalize_commas (s : jsstring) :
  normalize (replaceAll COMMA PERIOD s) = normalize s.
Proof.
  unfold normalize. f_equal.
  rewrite removeAll_replaceAll by (unfold COMMA, PERIOD, SPACE; lia).
  apply replaceAll_idempotent. unfold COMMA, PERIOD. lia.
Qed.

(** C8: replacing every comma of the input by a period does not change the
    result of [processWidthInput], whatever the unit system; so the METRIC
    inputs 1,5m and 1.5m give the same value. *)
Theorem processWidthInput_comma_period :
  (forall widthInput units,
      processWidthInput (option_map (replaceAll COMMA PERIOD) widthInput) units
      = processWidthInput widthInput units)
  /\ processWidthInput (Some (js "1,5m")) METRIC
     = processWidthInput (Some (js "1.5m")) METRIC.
Proof.
  split; [|vm_compute; reflexivity].
  intros [s|] units; simpl; [|reflexivity].
  rewrite normalize_commas.
  destruct s; reflexivity.
Qed.

(* ================================================================== *)
(** ** Feet and inches *)

Lemma processWidthInput_compound (input : jsstring) (units : option Z)
  (feet inches : jsstring) :
  inputTruthy (Some input) = true -> unitsTruthy units = true ->
  normalize input = feet ++ [APOSTROPHE] ++ inches ->
  includes APOSTROPHE feet = false ->
  inches <> [] ->
  processWidthInput (Some input) units
  = reduce (addPart units) ((feet ++ [APOSTROPHE]) :: split APOSTROPHE inches).
Proof.
  intros Hi Hu Hn Hf Hne. unfold processWidthInput, isCompound.
  rewrite Hi, Hu. simpl.
  rewrite Hn. simpl. rewrite indexOf_app_fresh by assumption.
  replace (length feet + 1 <? length (feet ++ APOSTROPHE :: inches))%nat
    with true.
  - now rewrite split_app_fresh.
  - symmetry. apply Nat.ltb_lt. rewrite length_app. simpl.
    destruct inches; [contradiction|simpl; lia].
Qed.

Lemma processWidthInput_two_parts (input : jsstring) (units : option Z)
  (feet inches : jsstring) :
  inputTruthy (Some input) = true -> unitsTruthy units = true ->
  normalize input = feet ++ [APOSTROPHE] ++ inches ->
  includes APOSTROPHE feet = false ->
  includes APOSTROPHE inches = false ->
  inches <> [] ->
  processWidthInput (Some input) units
  = Return (Num (add (parseStringForUnits (feet ++ [APOSTROPHE]) None)
                     (parseStringForUnits
                        (if includes QUOTE inches then inches
                         else inches ++ [QUOTE]) units))).
Proof.
  intros Hi Hu Hn Hf Hr Hne.
  rewrite (processWidthInput_compound input units feet inches) by assumption.
  rewrite split_absent by assumption. reflexivity.
Qed.

(** C2, as the code has it: when the normalised input has exactly one feet
    marker, before its last character, with [feet] before the marker and
    [inches] after it, the result is the sum of the single-token parse of
    [feet'] (read without a unit system) and of the single-token parse of
    [inches], to which the inches marker is appended when it has none; so
    the input 5'7 with the inches marker, read as IMPERIAL, gives 5 + 7/12. *)
Theorem processWidthInput_feet_inches :
  (forall (input : jsstring) (units : option Z) (feet inches : jsstring),
      inputTruthy (Some input) = true -> unitsTruthy units = true ->
      normalize input = feet ++ [APOSTROPHE] ++ inches ->
      includes APOSTROPHE feet = false ->
      includes APOSTROPHE inches = false ->
      inches <> [] ->
      processWidthInput (Some input) units
      = Return (Num (add (parseStringForUnits (feet ++ [APOSTROPHE]) None)
                         (parseStringForUnits
                            (if includes QUOTE inches then inches
                             else inches ++ [QUOTE]) units))))
  /\ processWidthInput (Some (js "5'7" ++ [QUOTE])) IMPERIAL
     = Return (Num (add (ofZ 5) (div (ofZ 7) (ofZ 12)))).
Proof.
  split; [exact processWidthInput_two_parts | vm_compute; reflexivity].
Qed.

Lemma processWidthInput_feet_inches_witness :
  processWidthInput (Some (js "5' 7")) METRIC
  = Return (Num (add (parseStringForUnits (js "5'") None)
                     (parseStringForUnits (js "7" ++ [QUOTE]) METRIC))).
Proof.
  refine (proj1 processWidthInput_feet_inches (js "5' 7") METRIC
            (js "5") (js "7") _ _ _ _ _ _);
    try (vm_compute; reflexivity).
  vm_compute. discriminate.
Defined.

(** C2, as stated, fails when the feet marker occurs twice: for 1'2'3 the
    array has three parts and all of them are added, so the result is
    neither the sum for the parts 1 and 2'3 nor the sum for the parts 1
    and 2. *)
Lemma three_parts_are_added :
  normalize (js "1'2'3") = js "1" ++ [APOSTROPHE] ++ js "2'3"
  /\ isCompound (normalize (js "1'2'3")) = true
  /\ processWidthInput (Some (js "1'2'3")) IMPERIAL
     <> Return (Num (add (parseStringForUnits (js "1'") None)
                         (parseStringForUnits (js "2'3" ++ [QUOTE]) IMPERIAL)))
  /\ processWidthInput (Some (js "1'2'3")) IMPERIAL
     <> Return (Num (add (parseStringForUnits (js "1'") None)
                         (parseStringForUnits (js "2" ++ [QUOTE]) IMPERIAL))).
Proof.
  repeat split; try (vm_compute; reflexivity); vm_compute; discriminate.
Qed.

(* ================================================================== *)
(** ** Metric input *)

Lemma Qred_zero (q : Q) : (q == 0)%Q -> Qred q = 0%Q.
Proof. intros H. now rewrite (Qred_complete _ _ H). Qed.

Lemma isZero_spec (q : Q) : isZero q = true <-> (q == 0)%Q.
Proof.
  unfold isZero, Qeq. simpl. rewrite Z.mul_1_r. apply Z.eqb_eq.
Qed.

Lemma mul_falsy (q m : Q) :
  isZero q = true -> mul (Fin q) (Fin m) = ofZ 0.
Proof.
  intros H. apply isZero_spec in H. unfold mul, ofZ. f_equal.
  apply Qred_zero. rewrite H. ring.
Qed.

Lemma parseStringForUnits_metric (w : jsstring) :
  let t := removeAll DASH w in
  parseFloat t <> NaN ->
  matchesAtEnd (unitPattern (js "m")) t = true \/ findConversion t = None ->
  parseStringForUnits w METRIC
  = mul (parseFloat t) (div (ofZ 1) (div (ofZ 30) (ofZ 100))).
Proof.
  intros t Hnan Hm. unfold parseStringForUnits. rewrite strip_dashes. fold t.
  destruct (truthy (parseFloat t)) eqn:Ht.
  - f_equal. destruct Hm as [Hm|Hm].
    + unfold findConversion, WIDTH_INPUT_CONVERSION, find.
      cbn [text]. rewrite Hm. reflexivity.
    + rewrite Hm. reflexivity.
  - destruct (parseFloat t) as [| |q]; [congruence|discriminate|].
    simpl in Ht. apply negb_false_iff in Ht.
    symmetry. exact (mul_falsy q _ Ht).
Qed.

(** C5: under METRIC, an input that is not compound and reads as a number is
    multiplied by 1/(30/100) when it ends in a digit or period followed by m,
    and when no unit of the table matches; so the input 1m gives 1/(30/100). *)
Theorem processWidthInput_metric :
  (forall input : jsstring,
      let t := removeAll DASH (normalize input) in
      inputTruthy (Some input) = true ->
      isCompound (normalize input) = false ->
      parseFloat t <> NaN ->
      matchesAtEnd (unitPattern (js "m")) t = true \/ findConversion t = None ->
      processWidthInput (Some input) METRIC
      = Return (Num (mul (parseFloat t) (div (ofZ 1) (div (ofZ 30) (ofZ 100))))))
  /\ processWidthInput (Some (js "1m")) METRIC
     = Return (Num (div (ofZ 1) (div (ofZ 30) (ofZ 100)))).
Proof.
  split; [|vm_compute; reflexivity].
  intros input t Hi Hc Hnan Hm. unfold processWidthInput.
  rewrite Hi, Hc. simpl. do 2 f_equal.
  now apply parseStringForUnits_metric.
Qed.

Lemma processWidthInput_metric_witness :
  processWidthInput (Some (js "2,5 m")) METRIC
  = Return (Num (mul (parseFloat (js "2.5m"))
                     (div (ofZ 1) (div (ofZ 30) (ofZ 100)))))
  /\ processWidthInput (Some (js "12")) METRIC
     = Return (Num (mul (parseFloat (js "12"))
                        (div (ofZ 1) (div (ofZ 30) (ofZ 100))))).
Proof.
  split.
  - refine (proj1 processWidthInput_metric (js "2,5 m") _ _ _ _);
      try (vm_compute; reflexivity).
    + vm_compute. discriminate.
    + left. vm_compute. reflexivity.
  - refine (proj1 processWidthInput_metric (js "12") _ _ _ _);
      try (vm_compute; reflexivity).
    + vm_compute. discriminate.
    + right. vm_compute. reflexivity.
Defined.

(* ================================================================== *)
(** ** Vulgar fractions in the input *)

(** C6: the input 1, one half, the feet marker, 2, one half, the inches
    marker (1 1/2 feet 2 1/2 inches) keeps its second glyph through the
    normalisation, because only the first occurrence of a glyph is replaced,
    and is read as 1.5 + 2 feet; the substitution does come before the split,
    and the input 5', one half, inches marker gives 5 + (1/2)(1/12). *)
Theorem second_glyph_is_not_replaced :
  normalize (js "1" ++ [189%N] ++ js "'2" ++ [189%N; QUOTE])
  = js "1.5'2" ++ [189%N; QUOTE]
  /\ processWidthInput (Some (js "1" ++ [189%N] ++ js "'2" ++ [189%N; QUOTE]))
       IMPERIAL
     = Return (Num (add (div (ofZ 3) (ofZ 2)) (ofZ 2)))
  /\ processWidthInput (Some (js "5'" ++ [189%N; QUOTE])) IMPERIAL
     = Return (Num (add (ofZ 5) (mul (div (ofZ 1) (ofZ 2)) (div (ofZ 1) (ofZ 12))))).
Proof.
  repeat split; vm_compute; reflexivity.
Qed.

(* ================================================================== *)
(** ** Vulgar fractions in the output *)

Lemma lookup_key_value (key : jsstring) (g : jschar) :
  In (key, g) IMPERIAL_VULGAR_FRACTIONS ->
  lookup (substr 1 (toString (Fin (Qred (keyValue key)))))
    IMPERIAL_VULGAR_FRACTIONS = Some g.
Proof.
  unfold IMPERIAL_VULGAR_FRACTIONS at 1. cbn [In]. intros H.
  repeat (destruct H as [H|H];
          [apply pair_equal_spec in H; destruct H as [<- <-];
           vm_compute; reflexivity|]).
  contradiction.
Qed.

Lemma remainder_key (q : Q) (key : jsstring) (g : jschar) :
  In (key, g) IMPERIAL_VULGAR_FRACTIONS ->
  (q - inject_Z (Qfloor q) == keyValue key)%Q ->
  lookup (substr 1 (toString (sub (Fin q) (floor (Fin q)))))
    IMPERIAL_VULGAR_FRACTIONS = Some g.
Proof.
  intros Hin Hq. cbn [floor]. unfold sub, neg, add.
  rewrite (Qred_complete _ (keyValue key)).
  - now apply lookup_key_value.
  - rewrite Qred_correct. exact Hq.
Qed.

Lemma prettifyWidth_glyph (locale : Locale) (v : number) (markup : bool)
  (g : jschar) :
  lookup (substr 1 (toString (sub v (floor v)))) IMPERIAL_VULGAR_FRACTIONS
  = Some g ->
  prettifyWidth locale v IMPERIAL markup
  = (if truthy (floor v)
     then stringifyMeasurementValue locale (floor v) IMPERIAL
     else [])
      ++ [g] ++ (if markup then WBR else []) ++ [APOSTROPHE].
Proof.
  intros H.
  unfold prettifyWidth, getImperialMeasurementWithVulgarFractions.
  change (unitsIs IMPERIAL SETTINGS_UNITS_IMPERIAL) with true. cbv iota.
  rewrite H. unfold IMPERIAL.
  destruct (truthy (floor v)), markup; simpl; rewrite <- ?app_assoc;
    reflexivity.
Qed.

(** C7: when the decimal string of the remainder [v - floor v], without its
    first character, is a key of the table of vulgar fractions with glyph
    [g], the IMPERIAL output is the formatted [floor v], left out when it is
    zero, then [g], then the break marker if asked for, then the feet marker.
    This is the case whenever the remainder is the number that a key
    denotes.  So [prettifyWidth(0.5, IMPERIAL)] is the glyph of one half and
    the feet marker. *)
Theorem prettifyWidth_vulgar_fraction :
  (forall (locale : Locale) (v : number) (markup : bool) (g : jschar),
      lookup (substr 1 (toString (sub v (floor v)))) IMPERIAL_VULGAR_FRACTIONS
      = Some g ->
      prettifyWidth locale v IMPERIAL markup
      = (if truthy (floor v)
         then stringifyMeasurementValue locale (floor v) IMPERIAL
         else [])
          ++ [g] ++ (if markup then WBR else []) ++ [APOSTROPHE])
  /\ (forall (locale : Locale) (q : Q) (markup : bool) (key : jsstring)
             (g : jschar),
        In (key, g) IMPERIAL_VULGAR_FRACTIONS ->
        (q - inject_Z (Qfloor q) == keyValue key)%Q ->
        prettifyWidth locale (Fin q) IMPERIAL markup
        = (if truthy (floor (Fin q))
           then stringifyMeasurementValue locale (floor (Fin q)) IMPERIAL
           else [])
            ++ [g] ++ (if markup then WBR else []) ++ [APOSTROPHE])
  /\ (forall locale : Locale,
        prettifyWidth locale (div (ofZ 1) (ofZ 2)) IMPERIAL false
        = [189%N; APOSTROPHE]).
Proof.
  split; [exact prettifyWidth_glyph | split].
  - intros locale q markup key g Hin Hq.
    apply prettifyWidth_glyph. exact (remainder_key q key g Hin Hq).
  - intros locale. vm_compute. reflexivity.
Qed.

Lemma prettifyWidth_vulgar_fraction_witness :
  prettifyWidth en_US (Fin (4938 # 4)) IMPERIAL true
  = js "1,234" ++ [189%N] ++ WBR ++ [APOSTROPHE]
  /\ prettifyWidth en_US (Fin (-5 # 8)) IMPERIAL false
     = js "-1" ++ [8540%N; APOSTROPHE].
Proof.
  split.
  - refine (eq_trans
              (proj1 prettifyWidth_vulgar_fraction en_US (Fin (4938 # 4)) true
                 189%N _) _);
      vm_compute; reflexivity.
  - refine (eq_trans
              (proj1 (proj2 prettifyWidth_vulgar_fraction) en_US (-5 # 8) false
                 (js ".375") 8540%N _ _) _).
    + simpl. tauto.
    + vm_compute. reflexivity.
    + vm_compute. reflexivity.
Defined.

(* ================================================================== *)
(** ** No negative width *)

Lemma takeWhile_Forall (p : jschar -> bool) (s : jsstring) :
  Forall (fun c => p c = true) (takeWhile p s).
Proof.
  induction s as [|x r IH]; simpl; [constructor|].
  destruct (p x) eqn:E; constructor; assumption.
Qed.

Lemma dropWhile_incl (p : jschar -> bool) (s : jsstring) (c : jschar) :
  In c (dropWhile p s) -> In c s.
Proof.
  induction s as [|x r IH]; simpl; [tauto|].
  destruct (p x); simpl; intros H; [right; now apply IH | exact H].
Qed.

Lemma isDigit_spec (c : jschar) :
  isDigit c = true <-> (48 <= c <= 57)%N.
Proof.
  unfold isDigit. rewrite andb_true_iff, !N.leb_le. tauto.
Qed.

Lemma digitsValue_acc (ds : jsstring) (acc : Z) :
  fold_left (fun a c => (a * 10 + (Z.of_N c - 48))%Z) ds acc
  = (acc * 10 ^ Z.of_nat (length ds) + digitsValue ds)%Z.
Proof.
  unfold digitsValue. revert acc.
  induction ds as [|d r IH]; intros acc.
  - simpl. lia.
  - cbn [fold_left length]. rewrite IH, (IH (0 * 10 + _)%Z).
    rewrite Nat2Z.inj_succ, Z.pow_succ_r by lia. ring.
Qed.

Lemma digitsValue_app (a b : jsstring) :
  digitsValue (a ++ b)
  = (digitsValue a * 10 ^ Z.of_nat (length b) + digitsValue b)%Z.
Proof.
  unfold digitsValue at 1. rewrite fold_left_app.
  fold (digitsValue a). apply digitsValue_acc.
Qed.

Lemma digitsValue_nonneg (ds : jsstring) :
  Forall (fun c => isDigit c = true) ds -> (0 <= digitsValue ds)%Z.
Proof.
  induction ds as [|d r IH] using rev_ind; intros H; [now compute|].
  rewrite digitsValue_app. apply Forall_app in H. destruct H as [Hr Hd].
  apply IH in Hr. inversion Hd as [|? ? Hd' _]; subst.
  apply isDigit_spec in Hd'. unfold digitsValue at 2. simpl. lia.
Qed.

Lemma Qred_nonneg (q : Q) : (0 <= q)%Q -> (0 <= Qred q)%Q.
Proof. intros H. now rewrite Qred_correct. Qed.

Lemma unsignedLiteral_nonNegative (s : jsstring) (x : number) :
  unsignedLiteral s = Some x -> nonNegative x.
Proof.
  unfold unsignedLiteral.
  destruct (startsWith (js "Infinity") s).
  { intros H. injection H as <-. reflexivity. }
  set (ip := takeWhile isDigit s).
  assert (Hip : Forall (fun c => isDigit c = true) ip)
    by apply takeWhile_Forall.
  destruct (match dropWhile isDigit s with
            | [] => _
            | c :: r => _
            end) as [fp r2] eqn:E.
  assert (Hfp : Forall (fun c => isDigit c = true) fp).
  { destruct (dropWhile isDigit s) as [|c r].
    - injection E as <- _. constructor.
    - destruct (c =? PERIOD)%N; injection E as <- _;
        [apply takeWhile_Forall | constructor]. }
  assert (Hv : (0 <= digitsValue (ip ++ fp))%Z)
    by (apply digitsValue_nonneg, Forall_app; now split).
  destruct (ip ++ fp) as [|d ds]; [discriminate|].
  intros H.
  apply (f_equal (fun o => match o with Some y => y | None => NaN end)) in H.
  cbv beta iota in H. subst x. unfold nonNegative.
  apply Qred_nonneg, Qmult_le_0_compat.
  - change 0%Q with (inject_Z 0). rewrite <- Zle_Qle. exact Hv.
  - apply Qpower_0_le. discriminate.
Qed.

Lemma parseFloat_nonNegative (s : jsstring) :
  includes DASH s = false ->
  parseFloat s = NaN \/ nonNegative (parseFloat s).
Proof.
  intros Hd. unfold parseFloat.
  assert (Ht : ~ In DASH (dropWhile isWhiteSpace s)).
  { intros H. apply dropWhile_incl in H.
    now apply (proj1 (includes_false_iff DASH s)) in H. }
  destruct (dropWhile isWhiteSpace s) as [|c r].
  - destruct (unsignedLiteral []) eqn:E; [|now left].
    right. now apply (unsignedLiteral_nonNegative []).
  - destruct (c =? PLUS)%N.
    + destruct (unsignedLiteral r) eqn:E; [|now left].
      right. now apply (unsignedLiteral_nonNegative r).
    + destruct (N.eqb_spec c DASH) as [->|_].
      * exfalso. apply Ht. now left.
      * destruct (unsignedLiteral (c :: r)) eqn:E; [|now left].
        right. now apply (unsignedLiteral_nonNegative (c :: r)).
Qed.

Lemma conversion_positive :
  Forall (fun c => positive_number (multiplier c)) WIDTH_INPUT_CONVERSION.
Proof.
  unfold WIDTH_INPUT_CONVERSION.
  repeat constructor; cbn [multiplier]; eexists;
    (split; [vm_compute; reflexivity | reflexivity]).
Qed.

Lemma mul_nonNegative (w m : number) :
  truthy w = true -> nonNegative w -> positive_number m ->
  nonNegative (mul w m).
Proof.
  intros Ht Hw [q [-> Hq]].
  destruct w as [|s|a]; cbn [nonNegative mul] in *; [contradiction| |].
  - subst s. unfold isZero, isNegative.
    assert (0 < Qnum q)%Z by (unfold Qlt in Hq; simpl in Hq; lia).
    destruct (Z.eqb_spec (Qnum q) 0); [lia|].
    destruct (Z.ltb_spec (Qnum q) 0); [lia|]. reflexivity.
  - apply Qred_nonneg, Qmult_le_0_compat; [assumption|].
    now apply Qlt_le_weak.
Qed.

Lemma add_nonNegative (x y : number) :
  nonNegative x -> nonNegative y -> nonNegative (add x y).
Proof.
  destruct x as [|s|a], y as [|t|b]; cbn [nonNegative add]; try tauto.
  - intros -> ->. reflexivity.
  - intros Ha Hb. apply Qred_nonneg.
    rewrite <- (Qplus_0_l 0). now apply Qplus_le_compat.
Qed.

Lemma parseStringForUnits_nonNegative (w : jsstring) (units : option Z) :
  nonNegative (parseStringForUnits w units).
Proof.
  unfold parseStringForUnits. rewrite strip_dashes.
  destruct (truthy (parseFloat (removeAll DASH w))) eqn:Ht;
    [|simpl; apply Qle_refl].
  apply mul_nonNegative; [assumption| |].
  - destruct (parseFloat_nonNegative (removeAll DASH w)
                (removeAll_includes DASH w)) as [H|H]; [|assumption].
    rewrite H in Ht. discriminate.
  - destruct (findConversion (removeAll DASH w)) as [[t m]|] eqn:E.
    + apply find_some in E. destruct E as [E _].
      exact (proj1 (Forall_forall _ _) conversion_positive _ E).
    + destruct (unitsIs units SETTINGS_UNITS_METRIC); eexists;
        (split; [vm_compute; reflexivity | reflexivity]).
Qed.

Lemma fold_addPart_nonNegative (units : option Z) (r : list jsstring) (v : value) :
  r <> [] \/ (exists n, v = Num n /\ nonNegative n) ->
  exists m, fold_left (addPart units) r v = Num m /\ nonNegative m.
Proof.
  revert v. induction r as [|x t IH]; intros v H.
  - destruct H as [H|[n [-> Hn]]]; [contradiction|]. now exists n.
  - simpl. apply IH. right. unfold addPart. eexists. split; [reflexivity|].
    apply add_nonNegative; apply parseStringForUnits_nonNegative.
Qed.

(** C10: the result of [processWidthInput] is undefined or a number that is
    not negative, for every input and every unit system. *)
Theorem processWidthInput_not_negative :
  forall (widthInput : option jsstring) (units : option Z),
    processWidthInput widthInput units = Return Undefined
    \/ exists n, processWidthInput widthInput units = Return (Num n)
                 /\ nonNegative n.
Proof.
  intros [input|] units; [|now left]. unfold processWidthInput.
  destruct (negb (inputTruthy (Some input)) || negb (unitsTruthy units));
    [now left|]. right.
  unfold isCompound.
  destruct (indexOf APOSTROPHE (normalize input)) as [i|] eqn:E.
  - destruct (i + 1 <? length (normalize input))%nat.
    + destruct (split_present _ _ _ E) as [p [q [qs ->]]].
      unfold reduce.
      destruct (fold_addPart_nonNegative units (q :: qs)
                  (Str (p ++ [APOSTROPHE]))) as [m [Hm Hn]].
      { left. discriminate. }
      rewrite Hm. now exists m.
    + eexists. split; [reflexivity|]. apply parseStringForUnits_nonNegative.
  - eexists. split; [reflexivity|]. apply parseStringForUnits_nonNegative.
Qed.

(* ================================================================== *)
(** ** The alphabet of a formatted number *)

Lemma digitsFuel_digits (fuel : nat) (n : N) :
  Forall (fun c => isDigit c = true) (digitsFuel fuel n).
Proof.
  revert n. induction fuel as [|f IH]; intros n; cbn [digitsFuel];
    [constructor|].
  destruct (N.ltb_spec n 10).
  - repeat constructor. apply isDigit_spec. lia.
  - apply Forall_app. split; [apply IH|].
    repeat constructor. apply isDigit_spec.
    assert (n mod 10 < 10)%N by (apply N.mod_lt; discriminate).
    generalize dependent (n mod 10)%N. intros m Hm. lia.
Qed.

Lemma digits_digits (n : N) : Forall (fun c => isDigit c = true) (digits n).
Proof. apply digitsFuel_digits. Qed.

Section Alphabet.

Variable P : jschar -> Prop.



Lemma dropWhile_Forall (p : jschar -> bool) (s : jsstring) :
  Forall P s -> Forall P (dropWhile p s).
Proof.
  intros H. apply Forall_forall. intros c Hc.
  apply dropWhile_incl in Hc. exact (proj1 (Forall_forall _ _) H c Hc).
Qed.

Lemma stripZeros_Forall (s : jsstring) :
  Forall P s -> Forall P (stripZeros s).
Proof.
  intros H. unfold stripZeros. apply Forall_rev, dropWhile_Forall.
  now apply Forall_rev.
Qed.

Lemma padLeft_Forall (n : nat) (s : jsstring) :
  P 48%N -> Forall P s -> Forall P (padLeft n s).
Proof.
  intros H0 Hs. unfold padLeft. apply Forall_app. split; [|assumption].
  apply Forall_forall. intros c Hc. apply repeat_spec in Hc. now subst.
Qed.

End Alphabet.

Section TextAlphabet.

Variable l : Locale.

Let T (c : jschar) : Prop := textChar l c = true.













End TextAlphabet.

(* ================================================================== *)
(** ** The break marker *)

Lemma prettifyWidth_parts (locale : Locale) (v : number) (units : option Z)
  (markup : bool) :
  prettifyWidth locale v units markup
  = numericText locale v units
      ++ (if markup then WBR else [])
      ++ (if unitsIs units SETTINGS_UNITS_IMPERIAL then [APOSTROPHE]
          else (if markup then [HAIR_SPACE] else []) ++ HAIR_SPACE :: js "m").
Proof.
  unfold prettifyWidth, numericText, METRIC.
  destruct (unitsIs units SETTINGS_UNITS_IMPERIAL), markup;
    rewrite <- ?app_assoc; simpl; rewrite ?app_nil_r; reflexivity.
Qed.



(* ================================================================== *)
(** ** Reading a decimal with its feet marker *)

Lemma digit_cases (c : jschar) :
  isDigit c = true ->
  In c [48; 49; 50; 51; 52; 53; 54; 55; 56; 57]%N.
Proof.
  intros H. apply isDigit_spec in H. simpl.
  assert (c = 48 \/ c = 49 \/ c = 50 \/ c = 51 \/ c = 52 \/ c = 53
          \/ c = 54 \/ c = 55 \/ c = 56 \/ c = 57)%N as E by lia.
  intuition auto.
Qed.

(** A boolean test that fails on the ten digits fails on every digit. *)
Lemma digit_test (f : jschar -> bool) (c : jschar) :
  forallb (fun d => negb (f d)) [48; 49; 50; 51; 52; 53; 54; 55; 56; 57]%N
  = true ->
  isDigit c = true -> f c = false.
Proof.
  intros H Hc. rewrite forallb_forall in H.
  apply negb_true_iff, H, digit_cases, Hc.
Qed.

Lemma plain_digit (c : jschar) : isDigit c = true -> plain c = true.
Proof. unfold plain. intros ->. reflexivity. Qed.

Lemma plain_digits (s : jsstring) :
  Forall (fun c => isDigit c = true) s -> Forall (fun c => plain c = true) s.
Proof. apply Forall_impl. exact plain_digit. Qed.

Lemma plain_cases (c : jschar) :
  plain c = true -> isDigit c = true \/ c = PERIOD \/ c = APOSTROPHE.
Proof.
  unfold plain. rewrite !orb_true_iff, !N.eqb_eq. tauto.
Qed.

(** A test that fails on the digits, the period and the feet marker fails
    on every plain code unit. *)
Lemma plain_test (f : jschar -> bool) (c : jschar) :
  forallb (fun d => negb (f d))
    [48; 49; 50; 51; 52; 53; 54; 55; 56; 57; PERIOD; APOSTROPHE]%N = true ->
  plain c = true -> f c = false.
Proof.
  intros H Hc. rewrite forallb_forall in H. apply negb_true_iff, H.
  destruct (plain_cases c Hc) as [Hd|[->| ->]].
  - apply digit_cases in Hd. simpl in Hd |- *. tauto.
  - simpl. tauto.
  - simpl. tauto.
Qed.

Lemma plain_absent (x : jschar) (s : jsstring) :
  plain x = false -> Forall (fun c => plain c = true) s ->
  includes x s = false.
Proof.
  intros Hx Hs. apply includes_false_iff. intros Hin.
  rewrite Forall_forall in Hs. apply Hs in Hin. congruence.
Qed.

Lemma takeWhile_app_stop (p : jschar -> bool) (ds r : jsstring) (c : jschar) :
  Forall (fun x => p x = true) ds -> p c = false ->
  takeWhile p (ds ++ c :: r) = ds /\ dropWhile p (ds ++ c :: r) = c :: r.
Proof.
  intros Hds Hc. induction Hds as [|d ds Hd _ [IH1 IH2]]; simpl.
  - now rewrite Hc.
  - rewrite Hd. split; [now f_equal | assumption].
Qed.

Lemma decimalText_last (ip fp : jsstring) :
  Forall (fun c => isDigit c = true) ip ->
  Forall (fun c => isDigit c = true) fp ->
  ip ++ fp <> [] ->
  exists pre d, decimalText ip fp = pre ++ [d] /\ isDigit d = true.
Proof.
  intros Hip Hfp Hne. unfold decimalText.
  destruct fp as [|f fp'].
  - rewrite app_nil_r in *. destruct (exists_last Hne) as [pre [d ->]].
    exists pre, d. split; [reflexivity|].
    apply Forall_app in Hip. destruct Hip as [_ Hd]. now inversion Hd.
  - assert (Hf : f :: fp' <> []) by discriminate.
    destruct (exists_last Hf) as [pre [d E]]. rewrite E in *.
    exists (ip ++ PERIOD :: pre), d. split.
    + now rewrite <- app_assoc.
    + apply Forall_app in Hfp. destruct Hfp as [_ Hd]. now inversion Hd.
Qed.

Lemma decimalText_plain (ip fp : jsstring) :
  Forall (fun c => isDigit c = true) ip ->
  Forall (fun c => isDigit c = true) fp ->
  Forall (fun c => plain c = true) (decimalText ip fp ++ [APOSTROPHE]).
Proof.
  intros Hip Hfp. unfold decimalText.
  repeat (apply Forall_app; split).
  - now apply plain_digits.
  - destruct fp; [constructor|].
    constructor; [reflexivity | now apply plain_digits].
  - repeat constructor.
Qed.

Lemma parseFloat_decimalText (ip fp : jsstring) :
  Forall (fun c => isDigit c = true) ip ->
  Forall (fun c => isDigit c = true) fp ->
  ip ++ fp <> [] ->
  parseFloat (decimalText ip fp ++ [APOSTROPHE])
  = Fin (Qred (inject_Z (digitsValue (ip ++ fp))
               * Qpower 10 (0 - Z.of_nat (length fp)))).
Proof.
  intros Hip Hfp Hne.
  assert (Hhead : exists c r, decimalText ip fp ++ [APOSTROPHE] = c :: r
                              /\ (isDigit c = true \/ c = PERIOD)).
  { unfold decimalText. destruct ip as [|c ip'].
    - destruct fp as [|f fp']; [contradiction|].
      exists PERIOD. eexists. split; [reflexivity | now right].
    - exists c. eexists. split; [reflexivity|]. left. now inversion Hip. }
  destruct Hhead as [c [r [E Hc]]].
  assert (Hws : isWhiteSpace c = false).
  { destruct Hc as [Hc| ->]; [|reflexivity].
    apply (digit_test isWhiteSpace); [reflexivity | assumption]. }
  assert (Hplus : (c =? PLUS)%N = false).
  { destruct Hc as [Hc| ->]; [|reflexivity].
    apply (digit_test (fun x => (x =? PLUS)%N)); [reflexivity | assumption]. }
  assert (Hdash : (c =? DASH)%N = false).
  { destruct Hc as [Hc| ->]; [|reflexivity].
    apply (digit_test (fun x => (x =? DASH)%N)); [reflexivity | assumption]. }
  assert (Hinf : (73 =? c)%N = false).
  { destruct Hc as [Hc| ->]; [|reflexivity].
    apply (digit_test (fun x => (73 =? x)%N)); [reflexivity | assumption]. }
  unfold parseFloat. rewrite E. cbn [dropWhile]. rewrite Hws, Hplus, Hdash.
  unfold unsignedLiteral.
  replace (startsWith (js "Infinity") (c :: r)) with false
    by (change (js "Infinity") with (73%N :: js "nfinity");
        cbn [startsWith]; now rewrite Hinf).
  rewrite <- E. clear E Hws Hplus Hdash Hinf Hc c r.
  unfold decimalText. rewrite <- app_assoc.
  destruct fp as [|f fp'].
  - cbn [app].
    destruct (takeWhile_app_stop isDigit ip [] APOSTROPHE Hip eq_refl)
      as [-> ->].
    replace ((APOSTROPHE =? PERIOD)%N) with false by reflexivity.
    rewrite app_nil_r in *. destruct ip as [|i ip']; [contradiction|].
    reflexivity.
  - change ((PERIOD :: f :: fp') ++ [APOSTROPHE])
      with (PERIOD :: ((f :: fp') ++ [APOSTROPHE])).
    destruct (takeWhile_app_stop isDigit ip ((f :: fp') ++ [APOSTROPHE])
                PERIOD Hip eq_refl) as [-> ->].
    rewrite N.eqb_refl.
    destruct (takeWhile_app_stop isDigit (f :: fp') [] APOSTROPHE Hfp eq_refl)
      as [-> ->].
    destruct (ip ++ f :: fp') as [|x xs] eqn:Ex.
    + destruct ip; discriminate.
    + reflexivity.
Qed.

(** Patterns anchored at the end, read from the right. *)
Lemma matchAll_snoc (p : list atom) (t : jsstring) (a : atom) (c : jschar) :
  matchAll (p ++ [a]) (t ++ [c]) = matchAll p t && matchAtom a c.
Proof.
  revert t. induction p as [|b p IH]; intros [|x t]; simpl.
  - now rewrite andb_true_r.
  - destruct t; simpl; now rewrite andb_false_r.
  - destruct p; simpl; now rewrite andb_false_r.
  - now rewrite IH, andb_assoc.
Qed.

Lemma matchesAtEnd_snoc (p : list atom) (s : jsstring) (a : atom) (c : jschar) :
  matchesAtEnd (p ++ [a]) (s ++ [c]) = matchAtom a c && matchesAtEnd p s.
Proof.
  unfold matchesAtEnd. rewrite !length_app. simpl length.
  replace (length p + 1 <=? length s + 1)%nat with (length p <=? length s)%nat
    by (destruct (Nat.leb_spec (length p) (length s));
        symmetry; [apply Nat.leb_le | apply Nat.leb_gt]; lia).
  destruct (Nat.leb_spec (length p) (length s)) as [Hle|Hgt].
  - rewrite skipn_app.
    replace (length s + 1 - (length p + 1))%nat
      with (length s - length p)%nat by lia.
    replace (length s - length p - length s)%nat with 0%nat by lia.
    cbn [skipn andb]. rewrite matchAll_snoc. apply andb_comm.
  - cbn [andb]. now rewrite andb_false_r.
Qed.

Lemma matchesAtEnd_nil (s : jsstring) : matchesAtEnd [] s = true.
Proof.
  unfold matchesAtEnd. simpl. rewrite Nat.sub_0_r, skipn_all. reflexivity.
Qed.

(** After a digit, the feet marker selects the entry of the feet. *)
Lemma findConversion_feet (pre : jsstring) (d : jschar) :
  isDigit d = true ->
  findConversion (pre ++ [d; APOSTROPHE])
  = Some {| text := [APOSTROPHE]; multiplier := ofZ 1 |}.
Proof.
  intros Hd.
  assert (Hlit : forall (p : list atom) (x : jschar),
             (APOSTROPHE =? x)%N = false ->
             matchesAtEnd (p ++ [Literal x]) (pre ++ [d; APOSTROPHE]) = false).
  { intros p x Hx.
    change (pre ++ [d; APOSTROPHE]) with (pre ++ [d] ++ [APOSTROPHE]).
    rewrite app_assoc, matchesAtEnd_snoc. cbn [matchAtom]. now rewrite Hx. }
  assert (Hany : forall (p : list atom) (x : jschar),
             forallb (fun c => negb (c =? x)%N)
               [48; 49; 50; 51; 52; 53; 54; 55; 56; 57]%N = true ->
             matchesAtEnd (p ++ [Literal x; AnyChar]) (pre ++ [d; APOSTROPHE])
             = false).
  { intros p x Hx.
    change (pre ++ [d; APOSTROPHE]) with (pre ++ [d] ++ [APOSTROPHE]).
    change (p ++ [Literal x; AnyChar]) with (p ++ [Literal x] ++ [AnyChar]).
    rewrite !app_assoc, !matchesAtEnd_snoc. cbn [matchAtom].
    rewrite (digit_test (fun c => (c =? x)%N) d Hx Hd).
    now rewrite andb_false_r. }
  unfold findConversion, WIDTH_INPUT_CONVERSION. cbn [find text].
  change (unitPattern (js "m")) with ([DigitOrPeriod] ++ [Literal 109%N]).
  rewrite Hlit by reflexivity.
  change (unitPattern (js "cm"))
    with ([DigitOrPeriod; Literal 99%N] ++ [Literal 109%N]).
  rewrite Hlit by reflexivity.
  change (unitPattern [QUOTE]) with ([DigitOrPeriod] ++ [Literal QUOTE]).
  rewrite Hlit by reflexivity.
  change (unitPattern (js "in"))
    with ([DigitOrPeriod; Literal 105%N] ++ [Literal 110%N]).
  rewrite Hlit by reflexivity.
  change (unitPattern (js "in."))
    with ([DigitOrPeriod; Literal 105%N] ++ [Literal 110%N; AnyChar]).
  rewrite Hany by reflexivity.
  change (unitPattern (js "inch"))
    with ([DigitOrPeriod; Literal 105%N; Literal 110%N; Literal 99%N]
            ++ [Literal 104%N]).
  rewrite Hlit by reflexivity.
  change (unitPattern (js "inches"))
    with ([DigitOrPeriod; Literal 105%N; Literal 110%N; Literal 99%N;
           Literal 104%N; Literal 101%N] ++ [Literal 115%N]).
  rewrite Hlit by reflexivity.
  change (unitPattern [APOSTROPHE])
    with (([] ++ [DigitOrPeriod]) ++ [Literal APOSTROPHE]).
  change (pre ++ [d; APOSTROPHE]) with (pre ++ [d] ++ [APOSTROPHE]).
  rewrite app_assoc, !matchesAtEnd_snoc, matchesAtEnd_nil.
  cbn [matchAtom]. rewrite Hd, N.eqb_refl. reflexivity.
Qed.

Lemma parseStringForUnits_decimalText (ip fp : jsstring) :
  Forall (fun c => isDigit c = true) ip ->
  Forall (fun c => isDigit c = true) fp ->
  ip ++ fp <> [] ->
  exists x,
    parseStringForUnits (decimalText ip fp ++ [APOSTROPHE]) IMPERIAL = Fin x
    /\ (x == inject_Z (digitsValue (ip ++ fp))
             * Qpower 10 (0 - Z.of_nat (length fp)))%Q.
Proof.
  intros Hip Hfp Hne. unfold parseStringForUnits.
  rewrite strip_dashes, removeAll_absent
    by (apply plain_absent; [reflexivity | now apply decimalText_plain]).
  rewrite parseFloat_decimalText by assumption.
  set (v := (inject_Z (digitsValue (ip ++ fp))
             * Qpower 10 (0 - Z.of_nat (length fp)))%Q).
  destruct (truthy (Fin (Qred v))) eqn:Ht.
  - destruct (decimalText_last ip fp Hip Hfp Hne) as [pre [d [E Hd]]].
    rewrite E, <- app_assoc. cbn [app].
    rewrite (findConversion_feet pre d Hd).
    eexists. split; [reflexivity|].
    rewrite !Qred_correct. change (inject_Z 1) with 1%Q. ring.
  - exists 0%Q. split; [reflexivity|].
    cbn [truthy] in Ht. apply negb_false_iff, isZero_spec in Ht.
    rewrite Qred_correct in Ht. now rewrite Ht.
Qed.

(* ================================================================== *)
(** ** Normalising a formatted width *)

Lemma includes_app (c : jschar) (a b : jsstring) :
  includes c (a ++ b) = includes c a || includes c b.
Proof.
  destruct (includes c (a ++ b)) eqn:E.
  - apply includes_true_iff, in_app_or in E. symmetry. apply orb_true_iff.
    destruct E as [E|E]; [left|right]; now apply includes_true_iff.
  - symmetry. apply orb_false_iff.
    rewrite includes_false_iff in E.
    split; apply includes_false_iff; intros H; apply E, in_or_app; tauto.
Qed.

Lemma replaceAll_absent (c d : jschar) (s : jsstring) :
  includes c s = false -> replaceAll c d s = s.
Proof.
  rewrite includes_false_iff. unfold replaceAll.
  induction s as [|x r IH]; simpl; intros H; [reflexivity|].
  destruct (N.eqb_spec x c) as [->|_].
  - exfalso. apply H. now left.
  - f_equal. apply IH. intros ?. apply H. now right.
Qed.

Lemma replaceAll_app (c d : jschar) (a b : jsstring) :
  replaceAll c d (a ++ b) = replaceAll c d a ++ replaceAll c d b.
Proof. apply map_app. Qed.

Lemma replaceFirst_app_fresh (c : jschar) (k pre rest : jsstring) :
  includes c pre = false ->
  replaceFirst c k (pre ++ c :: rest) = pre ++ k ++ rest.
Proof.
  rewrite includes_false_iff.
  induction pre as [|x t IH]; simpl; intros H.
  - now rewrite N.eqb_refl.
  - destruct (N.eqb_spec x c) as [->|_].
    + exfalso. apply H. now left.
    + f_equal. apply IH. intros ?. apply H. now right.
Qed.

(** One turn of the loop over the glyphs. *)
Lemma fold_glyphs_plain (table : list (jsstring * jschar)) (s : jsstring) :
  Forall (fun e => plain (snd e) = false) table ->
  Forall (fun c => plain c = true) s ->
  fold_left
    (fun w e => if includes (snd e) w then replaceFirst (snd e) (fst e) w else w)
    table s = s.
Proof.
  intros Ht Hs. induction Ht as [|e t He _ IH]; [reflexivity|].
  cbn [fold_left]. now rewrite (plain_absent (snd e) s He Hs).
Qed.

Lemma fold_glyphs_one (table : list (jsstring * jschar)) (key : jsstring)
  (g : jschar) (pre rest : jsstring) :
  Forall (fun e => plain (snd e) = false) table ->
  Forall (fun e => Forall (fun c => plain c = true) (fst e)) table ->
  NoDup (map snd table) ->
  In (key, g) table ->
  Forall (fun c => plain c = true) pre ->
  Forall (fun c => plain c = true) rest ->
  fold_left
    (fun w e => if includes (snd e) w then replaceFirst (snd e) (fst e) w else w)
    table (pre ++ g :: rest) = pre ++ key ++ rest.
Proof.
  intros Hnp Hkp Hnd Hin Hpre Hrest.
  induction table as [|e t IH]; [contradiction|].
  inversion Hnp as [|? ? He Ht]; subst.
  inversion Hkp as [|? ? Hk Hkt]; subst.
  inversion Hnd as [|? ? Hnot Hnd']; subst.
  cbn [fold_left].
  destruct Hin as [->|Hin].
  - cbn [fst snd] in *.
    rewrite includes_app, (plain_absent g pre He Hpre). cbn [orb].
    replace (includes g (g :: rest)) with true
      by (symmetry; apply includes_true_iff; now left).
    rewrite replaceFirst_app_fresh by exact (plain_absent g pre He Hpre).
    apply fold_glyphs_plain; [assumption|].
    repeat (apply Forall_app; split); assumption.
  - assert (Hne : snd e <> g).
    { intros E. apply Hnot. rewrite E.
      change g with (snd (key, g)). now apply in_map. }
    replace (includes (snd e) (pre ++ g :: rest)) with false.
    + now apply IH.
    + symmetry. apply includes_false_iff. intros H.
      apply in_app_or in H. destruct H as [H|[H|H]].
      * rewrite Forall_forall in Hpre. apply Hpre in H. congruence.
      * congruence.
      * rewrite Forall_forall in Hrest. apply Hrest in H. congruence.
Qed.

Lemma table_glyphs_not_plain :
  Forall (fun e => plain (snd e) = false) IMPERIAL_VULGAR_FRACTIONS.
Proof. repeat constructor. Qed.

Lemma table_keys_plain :
  Forall (fun e => Forall (fun c => plain c = true) (fst e))
    IMPERIAL_VULGAR_FRACTIONS.
Proof. repeat constructor. Qed.

Lemma table_glyphs_distinct : NoDup (map snd IMPERIAL_VULGAR_FRACTIONS).
Proof.
  simpl. repeat constructor; simpl; intuition discriminate.
Qed.

Lemma normalize_plain (s : jsstring) :
  Forall (fun c => plain c = true) s -> normalize s = s.
Proof.
  intros Hs. unfold normalize.
  rewrite removeAll_absent by (now apply plain_absent).
  rewrite replaceAll_absent by (now apply plain_absent).
  exact (fold_glyphs_plain _ s table_glyphs_not_plain Hs).
Qed.

(** The formatted number without a glyph: the decimal separator of the
    locale becomes a period. *)
Lemma normalize_decimal (dec : jschar) (ip fs : jsstring) :
  dec = PERIOD \/ dec = COMMA ->
  Forall (fun c => isDigit c = true) ip ->
  Forall (fun c => isDigit c = true) fs ->
  normalize ((ip ++ match fs with
                    | [] => []
                    | _ :: _ => dec :: fs
                    end) ++ [APOSTROPHE])
  = decimalText ip fs ++ [APOSTROPHE].
Proof.
  intros Hdec Hip Hfs.
  pose proof (decimalText_plain ip fs Hip Hfs) as Hp.
  destruct Hdec as [->| ->]; [exact (normalize_plain _ Hp)|].
  rewrite <- normalize_commas.
  replace (replaceAll COMMA PERIOD
             ((ip ++ match fs with
                     | [] => []
                     | _ :: _ => COMMA :: fs
                     end) ++ [APOSTROPHE]))
    with (decimalText ip fs ++ [APOSTROPHE]);
    [exact (normalize_plain _ Hp)|].
  unfold decimalText. rewrite !replaceAll_app.
  rewrite (replaceAll_absent COMMA PERIOD ip)
    by (apply plain_absent; [reflexivity | now apply plain_digits]).
  destruct fs as [|f fs']; [reflexivity|].
  change (replaceAll COMMA PERIOD (COMMA :: f :: fs'))
    with (PERIOD :: replaceAll COMMA PERIOD (f :: fs')).
  rewrite (replaceAll_absent COMMA PERIOD (f :: fs'))
    by (apply plain_absent; [reflexivity | now apply plain_digits]).
  reflexivity.
Qed.

(** The formatted number with a glyph: the glyph becomes its key. *)
Lemma normalize_glyph (key : jsstring) (g : jschar) (ip : jsstring) :
  In (key, g) IMPERIAL_VULGAR_FRACTIONS ->
  Forall (fun c => isDigit c = true) ip ->
  normalize ((ip ++ [g]) ++ [APOSTROPHE]) = ip ++ key ++ [APOSTROPHE].
Proof.
  intros Hin Hip. unfold normalize.
  assert (Hg : plain g = false).
  { pose proof table_glyphs_not_plain as H. rewrite Forall_forall in H.
    exact (H _ Hin). }
  assert (Hgs : g <> SPACE /\ g <> COMMA).
  { simpl in Hin. intuition (try congruence);
      match goal with H : (_, _) = (_, _) |- _ => injection H as _ <- end;
      discriminate. }
  pose proof (plain_digits ip Hip) as Hpl.
  rewrite <- app_assoc. cbn [app].
  rewrite removeAll_absent.
  2:{ rewrite includes_app, (plain_absent SPACE ip eq_refl Hpl).
      apply includes_false_iff. simpl.
      intuition (try congruence; try discriminate). }
  rewrite replaceAll_absent.
  2:{ rewrite includes_app, (plain_absent COMMA ip eq_refl Hpl).
      apply includes_false_iff. simpl.
      intuition (try congruence; try discriminate). }
  apply (fold_glyphs_one _ key g ip [APOSTROPHE] table_glyphs_not_plain
           table_keys_plain table_glyphs_distinct Hin Hpl).
  repeat constructor.
Qed.

(* ================================================================== *)
(** ** Decimal digits *)

Lemma digits_fuel (n : N) :
  (n < 2 ^ N.of_nat (S (N.to_nat (N.log2 n))))%N.
Proof.
  rewrite Nat2N.inj_succ, N2Nat.id.
  destruct (N.eq_dec n 0) as [->|Hn]; [reflexivity|].
  apply N.log2_spec. lia.
Qed.

Lemma digitsFuel_value (fuel : nat) (n : N) :
  (n < 2 ^ N.of_nat fuel)%N ->
  digitsValue (digitsFuel fuel n) = Z.of_N n.
Proof.
  revert n. induction fuel as [|f IH]; intros n Hn.
  - change (2 ^ N.of_nat 0)%N with 1%N in Hn.
    unfold digitsValue. cbn [digitsFuel fold_left]. lia.
  - cbn [digitsFuel]. destruct (N.ltb_spec n 10) as [Hlt|Hge].
    + unfold digitsValue. cbn [fold_left]. lia.
    + rewrite digitsValue_app, IH.
      * unfold digitsValue at 1. cbn [fold_left length].
        rewrite N2Z.inj_add, N2Z.inj_mod, N2Z.inj_div.
        change (Z.of_N 10) with 10%Z. change (Z.of_N 48) with 48%Z.
        change (10 ^ Z.of_nat 1)%Z with 10%Z.
        pose proof (Z.div_mod (Z.of_N n) 10). lia.
      * rewrite Nat2N.inj_succ, N.pow_succ_r' in Hn.
        apply N.Div0.div_lt_upper_bound. lia.
Qed.

Lemma digits_value (n : N) : digitsValue (digits n) = Z.of_N n.
Proof. apply digitsFuel_value, digits_fuel. Qed.

Lemma digitsFuel_length (fuel : nat) (n : N) (k : nat) :
  (n < 10 ^ N.of_nat (S k))%N -> (length (digitsFuel fuel n) <= S k)%nat.
Proof.
  revert n k. induction fuel as [|f IH]; intros n k Hn; [simpl; lia|].
  cbn [digitsFuel]. destruct (N.ltb_spec n 10) as [Hlt|Hge].
  - simpl. lia.
  - rewrite length_app. cbn [length].
    destruct k as [|k].
    + change (10 ^ N.of_nat 1)%N with 10%N in Hn. lia.
    + assert (length (digitsFuel f (n / 10)) <= S k)%nat; [|lia].
      apply IH. rewrite (Nat2N.inj_succ (S k)), N.pow_succ_r' in Hn.
      apply N.Div0.div_lt_upper_bound. lia.
Qed.

Lemma digits_nonempty (n : N) : digits n <> [].
Proof.
  unfold digits. cbn [digitsFuel]. destruct (n <? 10)%N; [discriminate|].
  intros H. apply app_eq_nil in H. destruct H as [_ H]. discriminate.
Qed.

Lemma digitsValue_zeros_left (k : nat) (s : jsstring) :
  digitsValue (repeat 48%N k ++ s) = digitsValue s.
Proof.
  rewrite digitsValue_app.
  assert (E : digitsValue (repeat 48%N k) = 0%Z); [|rewrite E; lia].
  induction k as [|k IH]; [reflexivity|].
  change (repeat 48%N (S k)) with ([48%N] ++ repeat 48%N k).
  rewrite digitsValue_app, IH. reflexivity.
Qed.

Lemma digitsValue_zeros_right (s : jsstring) (j : nat) :
  digitsValue (s ++ repeat 48%N j) = (digitsValue s * 10 ^ Z.of_nat j)%Z.
Proof.
  rewrite digitsValue_app, repeat_length.
  assert (E : digitsValue (repeat 48%N j) = 0%Z); [|rewrite E; lia].
  induction j as [|j IH]; [reflexivity|].
  change (repeat 48%N (S j)) with ([48%N] ++ repeat 48%N j).
  rewrite digitsValue_app, IH. reflexivity.
Qed.

Lemma dropWhile_zeros (s : jsstring) :
  exists j, s = repeat 48%N j ++ dropWhile (N.eqb 48) s.
Proof.
  induction s as [|x r [j IH]]; [now exists 0%nat|].
  cbn [dropWhile]. destruct (N.eqb_spec 48 x) as [<-|_].
  - exists (S j). cbn [repeat app]. now f_equal.
  - now exists 0%nat.
Qed.

Lemma stripZeros_spec (s : jsstring) :
  exists j, s = stripZeros s ++ repeat 48%N j.
Proof.
  unfold stripZeros. destruct (dropWhile_zeros (rev s)) as [j E].
  exists j. apply (f_equal (@rev _)) in E.
  rewrite rev_involutive, rev_app_distr in E.
  replace (rev (repeat 48%N j)) with (repeat 48%N j) in E; [exact E|].
  clear E. induction j as [|j IH]; [reflexivity|].
  cbn [repeat rev]. rewrite <- IH. clear IH.
  induction j as [|j IH]; [reflexivity|]. cbn [repeat app]. now f_equal.
Qed.

Lemma group_short (sep : jschar) (s : jsstring) :
  (length s <= 3)%nat -> group sep s = s.
Proof.
  intros H. unfold group. rewrite <- length_rev in H.
  rewrite <- (rev_involutive s) at 2. f_equal.
  destruct (rev s) as [|a [|b [|c [|d r]]]]; try reflexivity.
  simpl in H. lia.
Qed.

(* ================================================================== *)
(** ** Rounding to a number of fraction digits *)

Lemma roundDiv_spec (a b : Z) :
  (0 < b)%Z ->
  (2 * b * roundDiv a b <= 2 * a + b < 2 * b * (roundDiv a b + 1))%Z.
Proof.
  intros Hb. unfold roundDiv.
  pose proof (Z.mul_div_le (2 * a + b) (2 * b)).
  pose proof (Z.mul_succ_div_gt (2 * a + b) (2 * b)).
  lia.
Qed.

Lemma roundDiv_nonneg (a b : Z) :
  (0 <= a)%Z -> (0 < b)%Z -> (0 <= roundDiv a b)%Z.
Proof. intros Ha Hb. unfold roundDiv. apply Z.div_pos; lia. Qed.

Lemma Qabs_nonneg_num (q : Q) : (0 <= Qnum q)%Z -> Qabs q = q.
Proof.
  destruct q as [a b]. simpl. intros H. now rewrite Z.abs_eq.
Qed.

Lemma format_small (l : Locale) (q : Q) :
  (0 <= Qnum q)%Z ->
  let n := Z.to_N (scaled q 3) in
  (n < 1000000)%N ->
  format l 3 (Fin q)
  = digits (n / 1000)
      ++ match stripZeros (padLeft 3 (digits (n mod 1000))) with
         | [] => []
         | _ :: _ =>
             decimalSeparator l :: stripZeros (padLeft 3 (digits (n mod 1000)))
         end.
Proof.
  intros Ha n Hn. unfold format.
  replace (isNegative q) with false
    by (symmetry; apply Z.ltb_ge; exact Ha).
  rewrite Qabs_nonneg_num by assumption.
  change (Z.of_nat 3) with 3%Z. fold n.
  change (10 ^ N.of_nat 3)%N with 1000%N.
  rewrite group_short; [reflexivity|].
  apply digitsFuel_length. change (10 ^ N.of_nat 3)%N with 1000%N.
  apply N.Div0.div_lt_upper_bound. lia.
Qed.

(** The fraction digits of the format denote [fp / 1000]. *)
Lemma fraction_digits (fp : N) :
  (fp < 1000)%N ->
  let fs := stripZeros (padLeft 3 (digits fp)) in
  Forall (fun c => isDigit c = true) fs
  /\ exists j, (length fs + j = 3)%nat
               /\ (digitsValue fs * 10 ^ Z.of_nat j = Z.of_N fp)%Z.
Proof.
  intros Hfp fs.
  assert (Hd : Forall (fun c => isDigit c = true) (padLeft 3 (digits fp)))
    by (apply padLeft_Forall; [reflexivity | apply digits_digits]).
  assert (Hlen : length (padLeft 3 (digits fp)) = 3%nat).
  { unfold padLeft. rewrite length_app, repeat_length.
    assert (length (digits fp) <= 3)%nat; [|lia].
    apply digitsFuel_length. exact Hfp. }
  assert (Hval : digitsValue (padLeft 3 (digits fp)) = Z.of_N fp).
  { unfold padLeft. now rewrite digitsValue_zeros_left, digits_value. }
  split; [now apply stripZeros_Forall|].
  destruct (stripZeros_spec (padLeft 3 (digits fp))) as [j E].
  fold fs in E. exists j. split.
  - rewrite E, length_app, repeat_length in Hlen. exact Hlen.
  - rewrite E, digitsValue_zeros_right in Hval. exact Hval.
Qed.

(* ================================================================== *)
(** ** Reading back a formatted width *)

Lemma digits_absent (x : jschar) (s : jsstring) :
  isDigit x = false -> Forall (fun c => isDigit c = true) s ->
  includes x s = false.
Proof.
  intros Hx Hs. apply includes_false_iff. intros Hin.
  rewrite Forall_forall in Hs. apply Hs in Hin. congruence.
Qed.

Lemma isCompound_last (s : jsstring) :
  includes APOSTROPHE s = false -> isCompound (s ++ [APOSTROPHE]) = false.
Proof.
  intros H. unfold isCompound. rewrite indexOf_app_fresh by assumption.
  rewrite length_app. cbn [length]. apply Nat.ltb_irrefl.
Qed.

Lemma decimalText_no_marker (ip fp : jsstring) :
  Forall (fun c => isDigit c = true) ip ->
  Forall (fun c => isDigit c = true) fp ->
  includes APOSTROPHE (decimalText ip fp) = false.
Proof.
  intros Hip Hfp. unfold decimalText.
  rewrite includes_app, (digits_absent APOSTROPHE ip eq_refl Hip).
  destruct fp as [|f fp']; [reflexivity|].
  change (PERIOD :: f :: fp') with ([PERIOD] ++ f :: fp').
  now rewrite includes_app, (digits_absent APOSTROPHE (f :: fp') eq_refl Hfp).
Qed.

Lemma processWidthInput_decimal (input ip fp : jsstring) :
  input <> [] ->
  normalize input = decimalText ip fp ++ [APOSTROPHE] ->
  Forall (fun c => isDigit c = true) ip ->
  Forall (fun c => isDigit c = true) fp ->
  ip ++ fp <> [] ->
  exists x,
    processWidthInput (Some input) IMPERIAL = Return (Num (Fin x))
    /\ (x == inject_Z (digitsValue (ip ++ fp))
             * Qpower 10 (0 - Z.of_nat (length fp)))%Q.
Proof.
  intros Hne Hnorm Hip Hfp Hd.
  destruct (parseStringForUnits_decimalText ip fp Hip Hfp Hd) as [x [E Hx]].
  exists x. split; [|exact Hx].
  unfold processWidthInput.
  replace (inputTruthy (Some input)) with true
    by (destruct input; [contradiction | reflexivity]).
  change (unitsTruthy IMPERIAL) with true. cbn [negb orb].
  rewrite Hnorm, isCompound_last by (now apply decimalText_no_marker).
  now rewrite E.
Qed.

Lemma Qpower10_neg (k : nat) :
  (Qpower 10 (0 - Z.of_nat k) == / inject_Z (10 ^ Z.of_nat k))%Q.
Proof.
  replace (0 - Z.of_nat k)%Z with (- Z.of_nat k)%Z by lia.
  rewrite Qpower_opp, Zpower_Qpower by lia. reflexivity.
Qed.

(** Integer part [A] and [k] fraction digits of value [F], where [F] with
    [j] more zeros is [fp] in thousandths. *)
Lemma decimal_value (x : Q) (A F fp : Z) (k j : nat) :
  (x == inject_Z (A * 10 ^ Z.of_nat k + F) * Qpower 10 (0 - Z.of_nat k))%Q ->
  (F * 10 ^ Z.of_nat j = fp)%Z ->
  (k + j = 3)%nat ->
  (x == (A * 1000 + fp) # 1000)%Q.
Proof.
  intros Hx HF Hkj. rewrite Hx, Qpower10_neg. clear Hx.
  assert (HP : (0 < 10 ^ Z.of_nat k)%Z) by (apply Z.pow_pos_nonneg; lia).
  assert (E : (1000 = 10 ^ Z.of_nat k * 10 ^ Z.of_nat j)%Z).
  { rewrite <- Z.pow_add_r by lia.
    replace (Z.of_nat k + Z.of_nat j)%Z with 3%Z by lia. reflexivity. }
  destruct (10 ^ Z.of_nat k)%Z as [|p|p] eqn:EP; try lia.
  unfold Qeq. cbn [inject_Z Qinv Qmult Qnum Qden].
  rewrite Pos2Z.inj_mul. change (Z.pos 1) with 1%Z.
  change (Z.pos 1000) with 1000%Z.
  rewrite E at 1. rewrite E. rewrite <- HF. ring.
Qed.

Lemma round_bound (a : Z) (b : positive) (x : Q) :
  (0 <= a)%Z ->
  (x == roundDiv (a * 1000) (Zpos b) # 1000)%Q ->
  (Qabs (x - (a # b)) <= 1 # 8)%Q.
Proof.
  intros Ha Hx. rewrite Hx. apply Qabs_Qle_condition.
  pose proof (roundDiv_spec (a * 1000) (Zpos b) eq_refl) as H.
  set (n := roundDiv (a * 1000) (Zpos b)) in *.
  unfold Qle, Qminus, Qplus, Qopp. cbn [Qnum Qden].
  rewrite !Pos2Z.inj_mul. change (Z.pos 1000) with 1000%Z.
  change (Z.pos 8) with 8%Z. split; lia.
Qed.

Lemma scaled_small (a : Z) (b : positive) :
  (0 <= a)%Z -> (a * 10000 < 9999995 * Zpos b)%Z ->
  (0 <= scaled (a # b) 3 < 1000000)%Z
  /\ scaled (a # b) 3 = roundDiv (a * 1000) (Zpos b).
Proof.
  intros Ha Hlt. unfold scaled. cbn [Z.leb Z.compare Qnum Qden].
  change (10 ^ 3)%Z with 1000%Z.
  pose proof (roundDiv_spec (a * 1000) (Zpos b) eq_refl) as H.
  pose proof (roundDiv_nonneg (a * 1000) (Zpos b)) as H0.
  split; [|reflexivity]. split; [apply H0; lia|].
  set (n := roundDiv (a * 1000) (Zpos b)) in *. nia.
Qed.

(** Without a glyph: the text is the value rounded to thousandths. *)
Lemma roundtrip_decimal (l : Locale) (a : Z) (b : positive) :
  decimalSeparator l = PERIOD \/ decimalSeparator l = COMMA ->
  (0 <= a)%Z -> (a * 10000 < 9999995 * Zpos b)%Z ->
  exists x,
    processWidthInput
      (Some (stringifyMeasurementValue l (Fin (a # b)) IMPERIAL
               ++ [APOSTROPHE])) IMPERIAL = Return (Num (Fin x))
    /\ (Qabs (x - (a # b)) <= 1 # 8)%Q.
Proof.
  intros Hdec Ha Hlt. unfold stringifyMeasurementValue.
  destruct (truthy (Fin (a # b))) eqn:Ht; cbn [negb].
  - change (unitsIs IMPERIAL SETTINGS_UNITS_IMPERIAL) with true. cbv iota.
    change IMPERIAL_PRECISION with 3%nat.
    destruct (scaled_small a b Ha Hlt) as [[Hn0 Hn1] Hs].
    rewrite format_small by (cbn [Qnum]; lia).
    set (n := Z.to_N (scaled (a # b) 3)).
    assert (Hn : Z.of_N n = roundDiv (a * 1000) (Zpos b))
      by (unfold n; rewrite Z2N.id; lia).
    destruct (fraction_digits (n mod 1000)) as [Hfs [j [Hj Hv]]].
    { apply N.mod_lt. discriminate. }
    set (ip := digits (n / 1000)) in *.
    set (fs := stripZeros (padLeft 3 (digits (n mod 1000)))) in *.
    assert (Hip : Forall (fun c => isDigit c = true) ip)
      by apply digits_digits.
    destruct (processWidthInput_decimal
                ((ip ++ match fs with
                        | [] => []
                        | _ :: _ => decimalSeparator l :: fs
                        end) ++ [APOSTROPHE]) ip fs) as [x [E Hx]];
      try assumption.
    + intros H. apply app_eq_nil in H. destruct H as [_ H]. discriminate.
    + now apply normalize_decimal.
    + intros H. apply app_eq_nil in H. destruct H as [H _].
      exact (digits_nonempty _ H).
    + exists x. split; [exact E|].
      apply round_bound; [assumption|].
      rewrite digitsValue_app in Hx. unfold ip in Hx at 1.
      rewrite digits_value in Hx.
      rewrite (decimal_value x _ _ _ _ j Hx Hv Hj).
      replace (Z.of_N (n / 1000) * 1000 + Z.of_N (n mod 1000))%Z
        with (Z.of_N n); [now rewrite Hn|].
      rewrite N2Z.inj_div, N2Z.inj_mod. change (Z.of_N 1000) with 1000%Z.
      pose proof (Z.div_mod (Z.of_N n) 1000). lia.
  - exists 0%Q. split; [vm_compute; reflexivity|].
    cbn [truthy] in Ht. apply negb_false_iff in Ht.
    unfold isZero in Ht. cbn [Qnum] in Ht. apply Z.eqb_eq in Ht. subst a.
    apply Qabs_Qle_condition. unfold Qle. cbn. split; lia.
Qed.

(* ================================================================== *)
(** ** The decimal string of a remainder *)

Lemma eqb_eq (a b : jsstring) : JSString.eqb a b = true -> a = b.
Proof.
  unfold JSString.eqb. now destruct (list_eq_dec N.eq_dec a b).
Qed.

Lemma lookup_Some (key : jsstring) (table : list (jsstring * jschar))
  (g : jschar) :
  lookup key table = Some g -> In (key, g) table.
Proof.
  induction table as [|[k h] r IH]; simpl; [discriminate|].
  destruct (JSString.eqb k key) eqn:E.
  - intros H. left. apply eqb_eq in E. congruence.
  - intros H. right. now apply IH.
Qed.

Lemma leadingZeros_ge (fuel : nat) (a b z : Z) :
  (z <= leadingZeros fuel a b z)%Z.
Proof.
  revert a z. induction fuel as [|f IH]; intros a z; cbn [leadingZeros];
    [lia|].
  destruct (b <=? a * 10)%Z; [lia|].
  specialize (IH (a * 10)%Z (z + 1)%Z). lia.
Qed.

Lemma leadingZeros_first (fuel : nat) (a b : Z) :
  let z := leadingZeros (S fuel) a b 0 in
  (0 <= z)%Z /\ (z = 0%Z -> (b <= a * 10)%Z) /\ (z = 1%Z -> (a * 10 < b)%Z).
Proof.
  cbn [leadingZeros]. destruct (Z.leb_spec b (a * 10)) as [H|H].
  - cbv zeta. repeat split; lia.
  - pose proof (leadingZeros_ge fuel (a * 10) b (0 + 1)) as Hge.
    cbv zeta. repeat split; lia.
Qed.

Lemma stripTrailingZeros_spec (fuel : nat) (m : N) :
  exists j, (j <= fuel)%nat
            /\ (m = stripTrailingZeros fuel m * 10 ^ N.of_nat j)%N.
Proof.
  revert m. induction fuel as [|f IH]; intros m; cbn [stripTrailingZeros].
  - exists 0%nat. split; [lia|]. change (10 ^ N.of_nat 0)%N with 1%N. lia.
  - destruct ((m mod 10 =? 0)%N && negb (m =? 0)%N) eqn:E.
    + apply andb_true_iff in E. destruct E as [E _]. apply N.eqb_eq in E.
      destruct (IH (m / 10)%N) as [j [Hj Hm]].
      exists (S j). split; [lia|].
      rewrite Nat2N.inj_succ, N.pow_succ_r'.
      pose proof (N.div_mod m 10) as Hdm.
      set (s := stripTrailingZeros f (m / 10)) in *.
      set (p := (10 ^ N.of_nat j)%N) in *.
      clearbody s p.
      assert (H10 : (m = 10 * (m / 10))%N) by lia.
      rewrite H10, Hm. ring.
    + exists 0%nat. split; [lia|]. change (10 ^ N.of_nat 0)%N with 1%N. lia.
Qed.

Lemma roundDiv_le (a b m : Z) :
  (0 < b)%Z -> (2 * a + b < 2 * b * (m + 1))%Z -> (roundDiv a b <= m)%Z.
Proof.
  intros Hb H. unfold roundDiv.
  assert ((2 * a + b) / (2 * b) < m + 1)%Z; [|lia].
  apply Z.div_lt_upper_bound; lia.
Qed.

Lemma roundDiv_ge (a b m : Z) :
  (0 < b)%Z -> (2 * b * m <= 2 * a + b)%Z -> (m <= roundDiv a b)%Z.
Proof.
  intros Hb H. unfold roundDiv. apply Z.div_le_lower_bound; lia.
Qed.

(** The digits and the exponent of a number strictly between 0 and 1: the
    exponent is at most 1; it is 1 only for the digit 1; and when it is 0
    the digits are those of the value rounded to 17 places, or the digit 1. *)
Lemma significand_fraction (a : Z) (b : positive) (s : N) (n : Z) :
  (0 < a < Zpos b)%Z ->
  significand (a # b) = (s, n) ->
  (n <= 1)%Z
  /\ (n = 1%Z -> s = 1%N)
  /\ (n = 0%Z ->
      s = 1%N
      \/ exists j, (j <= 17)%nat
                   /\ (Z.of_N s * 10 ^ Z.of_nat j
                       = roundDiv (a * 10 ^ 17) (Zpos b))%Z
                   /\ (10 ^ 16 <= roundDiv (a * 10 ^ 17) (Zpos b) < 10 ^ 17)%Z).
Proof.
  intros Hab. unfold significand, decimalExponent. cbn [Qnum Qden].
  replace (Zpos b <=? a)%Z with false by (symmetry; apply Z.leb_gt; lia).
  destruct (leadingZeros_first (Z.to_nat (Z.log2 (Zpos b))) a (Zpos b))
    as [Hz0 [Hz1 Hz2]].
  set (z := leadingZeros (S (Z.to_nat (Z.log2 (Zpos b)))) a (Zpos b) 0) in *.
  unfold scaled. cbn [Qnum Qden].
  replace (0 <=? 17 - - z)%Z with true by (symmetry; apply Z.leb_le; lia).
  set (s17 := roundDiv (a * 10 ^ (17 - - z)) (Zpos b)).
  destruct (Z.eq_dec z 0) as [E0|N0].
  - assert (Es : s17 = roundDiv (a * 10 ^ 17) (Zpos b))
      by (unfold s17; now rewrite E0).
    specialize (Hz1 E0).
    assert (Hup : (s17 <= 10 ^ 17)%Z)
      by (rewrite Es; apply roundDiv_le; lia).
    assert (Hlo : (10 ^ 16 <= s17)%Z)
      by (rewrite Es; apply roundDiv_ge; lia).
    clearbody s17.
    destruct (Z.leb_spec (10 ^ 17) s17) as [Hc|Hc].
    + assert (E : s17 = (10 ^ 17)%Z) by lia. rewrite E, E0.
      intros H. apply pair_equal_spec in H. destruct H as [Hs Hn].
      assert (E1 : s = 1%N) by (rewrite <- Hs; vm_compute; reflexivity).
      repeat split; lia.
    + rewrite E0. intros H. apply pair_equal_spec in H.
      destruct H as [Hs Hn].
      split; [lia|]. split; [lia|]. intros _. right.
      destruct (stripTrailingZeros_spec 17 (Z.to_N s17)) as [j [Hj Hm]].
      exists j. split; [assumption|]. rewrite <- Es. split; [|lia].
      apply (f_equal Z.of_N) in Hm.
      rewrite Z2N.id, N2Z.inj_mul, N2Z.inj_pow, nat_N_Z in Hm by lia.
      rewrite Hs in Hm. symmetry. exact Hm.
  - destruct (Z.eq_dec z 1) as [E1|N1].
    + assert (Es : s17 = roundDiv (a * 10 ^ 18) (Zpos b))
        by (unfold s17; now rewrite E1).
      specialize (Hz2 E1).
      assert (Hup : (s17 <= 10 ^ 17)%Z)
        by (rewrite Es; apply roundDiv_le; lia).
      clearbody s17.
      destruct (Z.leb_spec (10 ^ 17) s17) as [Hc|Hc].
      * assert (E : s17 = (10 ^ 17)%Z) by lia. rewrite E, E1.
        intros H. apply pair_equal_spec in H. destruct H as [Hs Hn].
        assert (E2 : s = 1%N) by (rewrite <- Hs; vm_compute; reflexivity).
        split; [lia|]. split; [lia|]. intros _. now left.
      * rewrite E1. intros H. apply pair_equal_spec in H.
        destruct H as [Hs Hn]. repeat split; lia.
    + clearbody s17.
      destruct (10 ^ 17 <=? s17)%Z; intros H; apply pair_equal_spec in H;
        destruct H as [Hs Hn]; repeat split; lia.
Qed.

Lemma not_key (x : jsstring) (g : jschar) :
  forallb (fun e => negb (JSString.eqb (fst e) x)) IMPERIAL_VULGAR_FRACTIONS
  = true ->
  ~ In (x, g) IMPERIAL_VULGAR_FRACTIONS.
Proof.
  intros H Hin. rewrite forallb_forall in H. apply H in Hin.
  cbn [fst] in Hin. unfold JSString.eqb in Hin.
  destruct (list_eq_dec N.eq_dec x x); [discriminate | contradiction].
Qed.

(** A key of the table begins with a period and a digit other than 0, and
    has at most three digits. *)
Lemma key_shape (x : jsstring) (g : jschar) :
  In (x, g) IMPERIAL_VULGAR_FRACTIONS ->
  exists d r, x = PERIOD :: d :: r /\ d <> 48%N /\ (length r <= 2)%nat.
Proof.
  unfold IMPERIAL_VULGAR_FRACTIONS. cbn [In]. intros H.
  repeat (destruct H as [H|H];
          [apply pair_equal_spec in H; destruct H as [<- _];
           do 2 eexists; split; [reflexivity|];
           split; [discriminate | simpl; lia]|]).
  contradiction.
Qed.

(** Only the plain notation with exponent 0 can give a key of the table. *)
Lemma render_key (ds : jsstring) (n : Z) (g : jschar) :
  ds <> [] -> (n <= 0)%Z ->
  In (substr 1 (render ds n), g) IMPERIAL_VULGAR_FRACTIONS ->
  n = 0%Z /\ In (PERIOD :: ds, g) IMPERIAL_VULGAR_FRACTIONS.
Proof.
  intros Hds Hn. unfold render.
  assert (Hk : (1 <= Z.of_nat (length ds))%Z)
    by (destruct ds; [contradiction | cbn [length]; lia]).
  replace (Z.of_nat (length ds) <=? n)%Z with false
    by (symmetry; apply Z.leb_gt; lia).
  replace (0 <? n)%Z with false by (symmetry; apply Z.ltb_ge; lia).
  cbn [andb].
  destruct ((-6 <? n)%Z && (n <=? 0)%Z).
  - change (substr 1 ([48%N; PERIOD] ++ zeros (- n) ++ ds))
      with (PERIOD :: zeros (- n) ++ ds).
    unfold zeros. destruct (Z.to_nat (- n)) as [|m] eqn:Em.
    + intros H. split; [lia | exact H].
    + intros H. exfalso. apply key_shape in H.
      destruct H as [d [r [E [Hd _]]]]. cbn [repeat app] in E. congruence.
  - pose proof (digits_nonempty (Z.to_N (Z.abs (n - 1)))) as He.
    set (ex := digits (Z.to_N (Z.abs (n - 1)))) in *. clearbody ex.
    set (sign := if (n - 1 <? 0)%Z then DASH else PLUS). clearbody sign.
    destruct ds as [|d [|d2 rest]]; [contradiction| |].
    + change (substr 1 (d :: [101%N; sign] ++ ex))
        with (101%N :: sign :: ex).
      intros H. exfalso. apply key_shape in H.
      destruct H as [d' [r [E _]]]. discriminate E.
    + change (substr 1 (d :: PERIOD :: (d2 :: rest) ++ [101%N; sign] ++ ex))
        with (PERIOD :: d2 :: rest ++ 101%N :: sign :: ex).
      intros H. exfalso. apply key_shape in H.
      destruct H as [d' [r [E [_ Hr]]]].
      assert (E' : rest ++ 101%N :: sign :: ex = r) by congruence.
      apply (f_equal (@length _)) in E'. rewrite length_app in E'.
      destruct ex as [|e ex']; [contradiction|].
      cbn [length] in E'. lia.
Qed.

Lemma shift_exponent (c : Z) (j m : nat) :
  (10 ^ Z.of_nat m <= c < 10 ^ (Z.of_nat m + 1))%Z ->
  (10 ^ 16 <= c * 10 ^ Z.of_nat j < 10 ^ 17)%Z ->
  (j + m = 16)%nat.
Proof.
  intros [Hlo Hhi] [H16 H17].
  assert (Hj : (0 < 10 ^ Z.of_nat j)%Z) by (apply Z.pow_pos_nonneg; lia).
  destruct (lt_eq_lt_dec (j + m) 16) as [[Hlt|Heq]|Hgt]; [|assumption|].
  - exfalso.
    assert (c * 10 ^ Z.of_nat j < 10 ^ 16)%Z; [|lia].
    apply Z.lt_le_trans with (10 ^ (Z.of_nat m + 1) * 10 ^ Z.of_nat j)%Z.
    + apply Z.mul_lt_mono_pos_r; assumption.
    + rewrite <- Z.pow_add_r by lia. apply Z.pow_le_mono_r; lia.
  - exfalso.
    assert (10 ^ 17 <= c * 10 ^ Z.of_nat j)%Z; [|lia].
    apply Z.le_trans with (10 ^ Z.of_nat m * 10 ^ Z.of_nat j)%Z.
    + rewrite <- Z.pow_add_r by lia. apply Z.pow_le_mono_r; lia.
    + apply Z.mul_le_mono_nonneg_r; lia.
Qed.

Lemma key_facts (x : jsstring) (g : jschar) :
  In (x, g) IMPERIAL_VULGAR_FRACTIONS ->
  exists m, length (tl x) = S m
            /\ (10 ^ Z.of_nat m <= digitsValue (tl x)
                < 10 ^ (Z.of_nat m + 1))%Z.
Proof.
  unfold IMPERIAL_VULGAR_FRACTIONS. cbn [In]. intros H.
  repeat (destruct H as [H|H];
          [apply pair_equal_spec in H; destruct H as [<- _];
           eexists; split; [reflexivity | vm_compute; split; congruence]|]).
  contradiction.
Qed.

(** The value rounded to 17 places, read with [m + 1] digits, is within an
    eighth of the value. *)
Lemma key_bound (a : Z) (b : positive) (c : Z) (j m : nat) :
  (j + m = 16)%nat ->
  (c * 10 ^ Z.of_nat j = roundDiv (a * 10 ^ 17) (Zpos b))%Z ->
  (Qabs (inject_Z c / inject_Z (10 ^ Z.of_nat (S m)) - (a # b)) <= 1 # 8)%Q.
Proof.
  intros Hjm HR.
  pose proof (roundDiv_spec (a * 10 ^ 17) (Zpos b) eq_refl) as [H1 H2].
  rewrite <- HR in H1, H2. clear HR.
  assert (HT : (1 <= 10 ^ Z.of_nat j)%Z)
    by (apply (Z.pow_le_mono_r 10 0); lia).
  assert (HP : (10 <= 10 ^ Z.of_nat (S m))%Z)
    by (apply (Z.pow_le_mono_r 10 1); lia).
  assert (E : (10 ^ Z.of_nat j * 10 ^ Z.of_nat (S m) = 10 ^ 17)%Z).
  { rewrite <- Z.pow_add_r by lia. f_equal. lia. }
  set (T := (10 ^ Z.of_nat j)%Z) in *.
  destruct (10 ^ Z.of_nat (S m))%Z as [|p|p] eqn:EP; try lia.
  rewrite <- Qmake_Qdiv. rewrite <- E in H1, H2. clearbody T.
  assert (HX : (- Zpos b <= 2 * (c * Zpos b - a * Zpos p) <= Zpos b)%Z)
    by nia.
  apply Qabs_Qle_condition.
  unfold Qle, Qminus, Qplus, Qopp. cbn [Qnum Qden].
  rewrite !Pos2Z.inj_mul. change (Z.pos 8) with 8%Z. split; nia.
Qed.

(** When the decimal string of a remainder, without its first character,
    is a key of the table, the remainder is the value of the key, up to the
    rounding of the string. *)
Lemma toString_key (r : Q) (g : jschar) :
  (0 <= Qnum r < QDen r)%Z ->
  lookup (substr 1 (toString (Fin r))) IMPERIAL_VULGAR_FRACTIONS = Some g ->
  exists key, In (key, g) IMPERIAL_VULGAR_FRACTIONS
              /\ (Qabs (keyValue key - r) <= 1 # 8)%Q.
Proof.
  destruct r as [a b]. cbn [Qnum Qden]. intros Hab H.
  apply lookup_Some in H. unfold toString in H.
  destruct (isZero (a # b)) eqn:Ez.
  { exfalso. revert H. now apply not_key. }
  replace (isNegative (a # b)) with false in H
    by (symmetry; apply Z.ltb_ge; cbn [Qnum]; lia).
  unfold isZero in Ez. cbn [Qnum] in Ez. apply Z.eqb_neq in Ez.
  unfold toStringPositive in H.
  destruct (significand (a # b)) as [s n] eqn:Es.
  destruct (significand_fraction a b s n) as [Hn1 [Hn2 Hn3]];
    [lia | exact Es |].
  destruct (Z.eq_dec n 1) as [E1|N1].
  { exfalso. rewrite E1, (Hn2 E1) in H. revert H. now apply not_key. }
  apply render_key in H; [|apply digits_nonempty | lia].
  destruct H as [E0 Hin].
  destruct (Hn3 E0) as [E|[j [Hj [HR Hb]]]].
  { exfalso. rewrite E in Hin. revert Hin. now apply not_key. }
  exists (PERIOD :: digits s). split; [exact Hin|].
  destruct (key_facts _ _ Hin) as [m [Hlen Hm]].
  cbn [tl] in Hlen, Hm. rewrite digits_value in Hm.
  assert (Hjm : (j + m = 16)%nat)
    by (apply (shift_exponent (Z.of_N s)); [exact Hm | rewrite HR; exact Hb]).
  unfold keyValue. cbn [tl]. rewrite digits_value, Hlen.
  now apply (key_bound a b (Z.of_N s) j m).
Qed.

Lemma key_digits (x : jsstring) (g : jschar) :
  In (x, g) IMPERIAL_VULGAR_FRACTIONS ->
  exists d kd, x = PERIOD :: d :: kd
               /\ Forall (fun c => isDigit c = true) (d :: kd).
Proof.
  unfold IMPERIAL_VULGAR_FRACTIONS. cbn [In]. intros H.
  repeat (destruct H as [H|H];
          [apply pair_equal_spec in H; destruct H as [<- _];
           do 2 eexists; split; [reflexivity | repeat constructor]|]).
  contradiction.
Qed.

Lemma roundDiv_one (x : Z) : roundDiv x 1 = x.
Proof.
  unfold roundDiv. change (2 * 1)%Z with 2%Z.
  pose proof (Z.div_mod (2 * x + 1) 2). 
  pose proof (Z.mod_pos_bound (2 * x + 1) 2). lia.
Qed.

(** A whole number below 1000 is formatted as its digits. *)
Lemma stringify_integer (l : Locale) (fl : Z) :
  (0 < fl < 1000)%Z ->
  stringifyMeasurementValue l (Fin (inject_Z fl)) IMPERIAL
  = digits (Z.to_N fl).
Proof.
  intros Hfl. unfold stringifyMeasurementValue.
  replace (truthy (Fin (inject_Z fl))) with true
    by (symmetry; cbn [truthy]; unfold isZero; cbn [inject_Z Qnum];
        apply negb_true_iff, Z.eqb_neq; lia).
  cbn [negb]. change (unitsIs IMPERIAL SETTINGS_UNITS_IMPERIAL) with true.
  cbv iota. change IMPERIAL_PRECISION with 3%nat.
  assert (Es : scaled (inject_Z fl) 3 = (fl * 1000)%Z)
    by (unfold scaled; cbn [Z.leb Z.compare inject_Z Qnum Qden];
        change (10 ^ 3)%Z with 1000%Z; apply roundDiv_one).
  rewrite format_small;
    [rewrite Es | cbn [inject_Z Qnum]; lia | cbv zeta; rewrite Es; lia].
  replace (Z.to_N (fl * 1000)) with (Z.to_N fl * 1000)%N by lia.
  rewrite N.div_mul, N.Div0.mod_mul by discriminate.
  change (stripZeros (padLeft 3 (digits 0))) with (@nil N).
  apply app_nil_r.
Qed.

(** With a glyph: the text is the floor followed by the glyph. *)
Lemma roundtrip_glyph (l : Locale) (a : Z) (b : positive) (g : jschar) :
  (0 <= a)%Z -> (a * 10000 < 9999995 * Zpos b)%Z ->
  lookup (substr 1 (toString (sub (Fin (a # b)) (floor (Fin (a # b))))))
    IMPERIAL_VULGAR_FRACTIONS = Some g ->
  exists x,
    processWidthInput
      (Some ((if truthy (floor (Fin (a # b)))
              then stringifyMeasurementValue l (floor (Fin (a # b))) IMPERIAL
                     ++ [g]
              else [g]) ++ [APOSTROPHE])) IMPERIAL = Return (Num (Fin x))
    /\ (Qabs (x - (a # b)) <= 1 # 8)%Q.
Proof.
  intros Ha Hlt Hg. cbn [floor] in *.
  set (fl := Qfloor (a # b)) in *.
  assert (Hfl : (0 <= fl < 1000)%Z).
  { pose proof (Qfloor_le (a # b)) as H1.
    pose proof (Qlt_floor (a # b)) as H2.
    fold fl in H1, H2. unfold Qle in H1. unfold Qlt in H2.
    cbn [inject_Z Qnum Qden] in H1, H2. nia. }
  unfold sub, neg, add in Hg.
  set (r := Qred ((a # b) + Qred (- inject_Z fl))) in *.
  assert (Er : (r == (a # b) - inject_Z fl)%Q)
    by (unfold r; rewrite !Qred_correct; ring).
  assert (Hr : (0 <= Qnum r < QDen r)%Z).
  { pose proof (Qfloor_le (a # b)) as H1.
    pose proof (Qlt_floor (a # b)) as H2. fold fl in H1, H2.
    assert (H3 : (0 <= r)%Q) by (rewrite Er; lra).
    assert (H4 : (r < 1)%Q).
    { rewrite Er. rewrite inject_Z_plus in H2.
      change (inject_Z 1) with 1%Q in H2. lra. }
    unfold Qle in H3. unfold Qlt in H4. cbn [Qnum Qden] in H3, H4. lia. }
  destruct (toString_key r g Hr Hg) as [key [Hin Hbound]].
  destruct (key_digits key g Hin) as [d [kd [-> Hkd]]].
  set (ip := if truthy (Fin (inject_Z fl)) then digits (Z.to_N fl) else []).
  assert (Hip : Forall (fun c => isDigit c = true) ip)
    by (unfold ip; destruct (truthy _); [apply digits_digits | constructor]).
  assert (Hv : digitsValue ip = fl).
  { unfold ip. destruct (truthy (Fin (inject_Z fl))) eqn:Ht.
    - rewrite digits_value. lia.
    - cbn [truthy] in Ht. apply negb_false_iff in Ht.
      unfold isZero in Ht. cbn [inject_Z Qnum] in Ht.
      apply Z.eqb_eq in Ht. now rewrite Ht. }
  assert (Etext : (if truthy (Fin (inject_Z fl))
                   then stringifyMeasurementValue l (Fin (inject_Z fl))
                          IMPERIAL ++ [g]
                   else [g]) = ip ++ [g]).
  { unfold ip. destruct (truthy (Fin (inject_Z fl))) eqn:Ht; [|reflexivity].
    rewrite stringify_integer; [reflexivity|].
    cbn [truthy] in Ht. apply negb_true_iff in Ht.
    unfold isZero in Ht. cbn [inject_Z Qnum] in Ht.
    apply Z.eqb_neq in Ht. lia. }
  rewrite Etext.
  destruct (processWidthInput_decimal ((ip ++ [g]) ++ [APOSTROPHE]) ip
              (d :: kd)) as [x [E Hx]]; try assumption.
  - intros H. apply app_eq_nil in H. destruct H as [_ H]. discriminate.
  - rewrite (normalize_glyph _ g ip Hin Hip). unfold decimalText.
    now rewrite <- app_assoc.
  - intros H. apply app_eq_nil in H. destruct H as [_ H]. discriminate.
  - exists x. split; [exact E|].
    assert (Ex : (x == inject_Z fl + keyValue (PERIOD :: d :: kd))%Q).
    { rewrite Hx, digitsValue_app, Hv, Qpower10_neg. unfold keyValue.
      cbn [tl]. rewrite inject_Z_plus, inject_Z_mult.
      assert (HP : ~ (inject_Z (10 ^ Z.of_nat (length (d :: kd))) == 0)%Q).
      { assert (0 < 10 ^ Z.of_nat (length (d :: kd)))%Z
          by (apply Z.pow_pos_nonneg; lia).
        unfold Qeq. cbn [inject_Z Qnum Qden]. lia. }
      field. exact HP. }
    assert (Ed : (x - (a # b)
                  == keyValue (PERIOD :: d :: kd) - r)%Q)
      by (rewrite Ex, Er; ring).
    now rewrite Ed.
Qed.

(* ================================================================== *)
(** ** Formatting and reading back *)

(** C1, as the code has it: for a locale whose decimal separator is a period
    or a comma and a value [0 <= v < 999.9995], whose formatted text has no
    group separator, reading back the IMPERIAL text of [v] gives a number
    within 1/8 of [v]. *)
Theorem prettify_parse_roundtrip :
  forall (l : Locale) (q : Q),
    decimalSeparator l = PERIOD \/ decimalSeparator l = COMMA ->
    (0 <= q)%Q -> (q < 9999995 # 10000)%Q ->
    exists r,
      processWidthInput (Some (prettifyWidth l (Fin q) IMPERIAL false)) IMPERIAL
      = Return (Num r)
      /\ withinEighth (Fin q) r.
Proof.
  intros l [a b] Hdec H0 H1.
  assert (Ha : (0 <= a)%Z)
    by (unfold Qle in H0; cbn [Qnum Qden] in H0; lia).
  assert (Hlt : (a * 10000 < 9999995 * Zpos b)%Z)
    by (unfold Qlt in H1; cbn [Qnum Qden] in H1; lia).
  unfold prettifyWidth.
  change (unitsIs IMPERIAL SETTINGS_UNITS_IMPERIAL) with true. cbv iota.
  unfold getImperialMeasurementWithVulgarFractions.
  destruct (lookup _ IMPERIAL_VULGAR_FRACTIONS) as [g|] eqn:Eg.
  - destruct (roundtrip_glyph l a b g Ha Hlt Eg) as [x [E Hx]].
    exists (Fin x). split; [exact E | exact Hx].
  - destruct (roundtrip_decimal l a b Hdec Ha Hlt) as [x [E Hx]].
    exists (Fin x). split; [exact E | exact Hx].
Qed.

Lemma prettify_parse_roundtrip_witness :
  exists r,
    processWidthInput
      (Some (prettifyWidth en_US (Fin (1234 # 100)) IMPERIAL false)) IMPERIAL
    = Return (Num r)
    /\ withinEighth (Fin (1234 # 100)) r.
Proof.
  apply prettify_parse_roundtrip.
  - left. reflexivity.
  - unfold Qle. simpl. lia.
  - unfold Qlt. simpl. lia.
Defined.

(** C1, as stated, fails at 1000: the text is 1,000 with the feet marker,
    the comma is read as a decimal point, and the result is 1. *)
Lemma roundtrip_fails_at_1000 :
  ~ exists r,
      processWidthInput
        (Some (prettifyWidth en_US (ofZ 1000) IMPERIAL false)) IMPERIAL
      = Return (Num r)
      /\ withinEighth (ofZ 1000) r.
Proof.
  intros [r [E H]].
  assert (E1 : processWidthInput
                 (Some (prettifyWidth en_US (ofZ 1000) IMPERIAL false)) IMPERIAL
               = Return (Num (ofZ 1))) by (vm_compute; reflexivity).
  rewrite E1 in E. injection E as <-.
  unfold withinEighth, ofZ in H. apply Qabs_Qle_condition in H.
  destruct H as [H _]. unfold Qle in H. simpl in H. lia.
Qed.

(* ================================================================== *)
(** * Further properties of the parser and of the formatter *)

(* ================================================================== *)
(** ** Spaces and blank input *)

Lemma removeAll_idempotent (c : jschar) (s : jsstring) :
  removeAll c (removeAll c s) = removeAll c s.
Proof. apply removeAll_absent, removeAll_includes. Qed.

Lemma normalize_spaces (s : jsstring) :
  normalize (removeAll SPACE s) = normalize s.
Proof. unfold normalize. now rewrite removeAll_idempotent. Qed.

Lemma removeAll_blank (s : jsstring) :
  Forall (fun c => c = SPACE) s -> removeAll SPACE s = [].
Proof.
  induction 1 as [|c r Hc _ IH]; [reflexivity|].
  subst c. unfold removeAll in *. cbn [filter].
  rewrite N.eqb_refl. exact IH.
Qed.

(** X1: a string of spaces is not an empty input: it is normalised to the empty
    string, which reads as no number, and the result is 0, not undefined. *)
Theorem blank_input_is_zero :
  forall (input : jsstring) (units : option Z),
    input <> [] -> Forall (fun c => c = SPACE) input ->
    unitsTruthy units = true ->
    processWidthInput (Some input) units = Return (Num (ofZ 0)).
Proof.
  intros input units Hne Hsp Hu. unfold processWidthInput.
  replace (inputTruthy (Some input)) with true
    by (destruct input; [contradiction | reflexivity]).
  rewrite Hu. cbn [negb orb]. unfold normalize.
  rewrite (removeAll_blank input Hsp). reflexivity.
Qed.

Lemma blank_input_is_zero_witness :
  processWidthInput (Some (js "   ")) METRIC = Return (Num (ofZ 0)).
Proof.
  apply blank_input_is_zero.
  - discriminate.
  - repeat constructor.
  - reflexivity.
Defined.

(** X2: spaces anywhere in the input are ignored, as long as something else is
    left of the input. *)
Theorem spaces_are_ignored :
  forall (input : jsstring) (units : option Z),
    removeAll SPACE input <> [] ->
    processWidthInput (Some (removeAll SPACE input)) units
    = processWidthInput (Some input) units.
Proof.
  intros input units Hne. unfold processWidthInput.
  rewrite normalize_spaces.
  replace (inputTruthy (Some (removeAll SPACE input))) with true
    by (destruct (removeAll SPACE input); [contradiction | reflexivity]).
  replace (inputTruthy (Some input)) with true; [reflexivity|].
  destruct input; [contradiction | reflexivity].
Qed.

Lemma spaces_are_ignored_witness :
  processWidthInput (Some (js "5'7")) IMPERIAL
  = processWidthInput (Some (js " 5 ' 7 ")) IMPERIAL.
Proof.
  apply (spaces_are_ignored (js " 5 ' 7 ") IMPERIAL). discriminate.
Defined.

(* ================================================================== *)
(** ** Units written in the input and the unit system *)

Lemma parseStringForUnits_unit (w : jsstring) (units units' : option Z) :
  findConversion (removeAll DASH w) <> None ->
  parseStringForUnits w units = parseStringForUnits w units'.
Proof.
  intros H. unfold parseStringForUnits. rewrite strip_dashes.
  destruct (findConversion (removeAll DASH w)) as [[t m]|];
    [reflexivity | contradiction].
Qed.

(** When the text of a unit of the table ends a single-token input, the
    unit system plays no part: the result is the same under every unit
    system that is given. *)
Theorem written_unit_overrides_unit_system :
  forall (input : jsstring) (units units' : option Z),
    unitsTruthy units = true -> unitsTruthy units' = true ->
    isCompound (normalize input) = false ->
    findConversion (removeAll DASH (normalize input)) <> None ->
    processWidthInput (Some input) units = processWidthInput (Some input) units'.
Proof.
  intros input units units' Hu Hu' Hc Hf. unfold processWidthInput.
  rewrite Hu, Hu', Hc.
  now rewrite (parseStringForUnits_unit (normalize input) units units').
Qed.

Lemma written_unit_overrides_unit_system_witness :
  processWidthInput (Some (js "12 ft")) IMPERIAL
  = processWidthInput (Some (js "12 ft")) METRIC.
Proof.
  apply written_unit_overrides_unit_system; try reflexivity.
  vm_compute. discriminate.
Defined.

Lemma mul_one_then (p : number) (m : Q) :
  p <> NaN ->
  mul (mul p (ofZ 1)) (Fin m) = mul p (Fin m).
Proof.
  intros Hp. destruct p as [|s|a]; [contradiction| |].
  - cbn [mul ofZ]. change (isZero (inject_Z 1)) with false.
    change (isNegative (inject_Z 1)) with false. cbv iota.
    now rewrite xorb_false_r.
  - cbn [mul ofZ]. f_equal. apply Qred_complete.
    rewrite Qred_correct. change (inject_Z 1) with 1%Q. ring.
Qed.

Lemma parseStringForUnits_default (w : jsstring) :
  findConversion (removeAll DASH w) = None ->
  parseStringForUnits w METRIC
  = mul (parseStringForUnits w IMPERIAL) (div (ofZ 1) IMPERIAL_METRIC_MULTIPLIER).
Proof.
  intros H. unfold parseStringForUnits. rewrite strip_dashes, H.
  change (unitsIs METRIC SETTINGS_UNITS_METRIC) with true.
  change (unitsIs IMPERIAL SETTINGS_UNITS_METRIC) with false. cbv iota.
  destruct (truthy (parseFloat (removeAll DASH w))) eqn:Ht;
    [|reflexivity].
  change (div (ofZ 1) IMPERIAL_METRIC_MULTIPLIER) with (Fin (10 # 3)).
  symmetry. apply mul_one_then. intros E. rewrite E in Ht. discriminate.
Qed.

(** When no unit of the table ends a single-token input, the number is
    read in feet under IMPERIAL and in metres under METRIC: the METRIC
    result is the IMPERIAL result times 1/(30/100). *)
Theorem unitless_metric_is_imperial_scaled :
  forall (input : jsstring),
    inputTruthy (Some input) = true ->
    isCompound (normalize input) = false ->
    findConversion (removeAll DASH (normalize input)) = None ->
    exists x,
      processWidthInput (Some input) IMPERIAL = Return (Num x)
      /\ processWidthInput (Some input) METRIC
         = Return (Num (mul x (div (ofZ 1) IMPERIAL_METRIC_MULTIPLIER))).
Proof.
  intros input Hi Hc Hf. unfold processWidthInput. rewrite Hi, Hc.
  cbn [unitsTruthy IMPERIAL METRIC negb orb].
  change (negb (SETTINGS_UNITS_IMPERIAL =? 0)%Z) with true.
  change (negb (SETTINGS_UNITS_METRIC =? 0)%Z) with true. cbv iota.
  eexists. split; [reflexivity|].
  now rewrite parseStringForUnits_default.
Qed.

Lemma unitless_metric_is_imperial_scaled_witness :
  exists x,
    processWidthInput (Some (js "2.5")) IMPERIAL = Return (Num x)
    /\ processWidthInput (Some (js "2.5")) METRIC
       = Return (Num (mul x (div (ofZ 1) IMPERIAL_METRIC_MULTIPLIER))).
Proof.
  apply unitless_metric_is_imperial_scaled; reflexivity.
Defined.

(* ================================================================== *)
(** ** Dashes *)

Lemma removeAll_comm (a b : jschar) (s : jsstring) :
  removeAll a (removeAll b s) = removeAll b (removeAll a s).
Proof.
  unfold removeAll. induction s as [|x t IH]; [reflexivity|].
  cbn [filter].
  destruct (x =? b)%N eqn:Eb, (x =? a)%N eqn:Ea; cbn [negb filter];
    rewrite ?Ea, ?Eb; cbn [negb]; now rewrite IH.
Qed.

Lemma removeAll_app (a : jschar) (s t : jsstring) :
  removeAll a (s ++ t) = removeAll a s ++ removeAll a t.
Proof. apply filter_app. Qed.

Lemma includes_removeAll (a c : jschar) (s : jsstring) :
  a <> c -> includes c (removeAll a s) = includes c s.
Proof.
  intros Hac. destruct (includes c s) eqn:E.
  - apply includes_true_iff. apply includes_true_iff in E.
    unfold removeAll. apply filter_In. split; [assumption|].
    apply negb_true_iff, N.eqb_neq. congruence.
  - apply includes_false_iff. rewrite includes_false_iff in E.
    intros H. apply E. unfold removeAll in H. now apply filter_In in H.
Qed.

Lemma replaceFirst_removeAll (a g : jschar) (k s : jsstring) :
  g <> a -> includes a k = false ->
  replaceFirst g k (removeAll a s) = removeAll a (replaceFirst g k s).
Proof.
  intros Hga Hk. induction s as [|x t IH]; [reflexivity|].
  cbn [replaceFirst]. unfold removeAll at 1. cbn [filter].
  fold (removeAll a t).
  destruct (N.eqb_spec x a) as [->|Hxa]; cbn [negb].
  - destruct (N.eqb_spec a g) as [E|_]; [congruence|].
    rewrite IH. unfold removeAll at 2. cbn [filter].
    now rewrite N.eqb_refl.
  - cbn [replaceFirst]. destruct (N.eqb_spec x g) as [->|Hxg].
    + now rewrite removeAll_app, (removeAll_absent a k Hk).
    + rewrite IH. unfold removeAll at 2. cbn [filter].
      destruct (N.eqb_spec x a); [contradiction | reflexivity].
Qed.

Lemma fold_glyphs_removeAll (a : jschar) (table : list (jsstring * jschar))
  (s : jsstring) :
  Forall (fun e => snd e <> a /\ includes a (fst e) = false) table ->
  fold_left
    (fun w e => if includes (snd e) w then replaceFirst (snd e) (fst e) w else w)
    table (removeAll a s)
  = removeAll a
      (fold_left
         (fun w e =>
            if includes (snd e) w then replaceFirst (snd e) (fst e) w else w)
         table s).
Proof.
  intros Ht. revert s. induction Ht as [|e t [Hg Hk] _ IH]; intros s;
    [reflexivity|].
  cbn [fold_left]. rewrite includes_removeAll by congruence.
  destruct (includes (snd e) s); [|apply IH].
  rewrite replaceFirst_removeAll by assumption. apply IH.
Qed.

Lemma normalize_dashes (s : jsstring) :
  normalize (removeAll DASH s) = removeAll DASH (normalize s).
Proof.
  unfold normalize, substituteFractions.
  rewrite (removeAll_comm SPACE DASH).
  rewrite <- removeAll_replaceAll by discriminate.
  apply fold_glyphs_removeAll.
  repeat constructor; discriminate.
Qed.

Lemma replaceFirst_In (c g : jschar) (k s : jsstring) :
  In c (replaceFirst g k s) -> In c s \/ In c k.
Proof.
  induction s as [|x t IH]; cbn [replaceFirst]; [tauto|].
  destruct (x =? g)%N.
  - intros H. apply in_app_or in H. simpl. tauto.
  - simpl. intros [H|H]; [tauto|]. apply IH in H. tauto.
Qed.

Lemma fold_glyphs_In (c : jschar) (table : list (jsstring * jschar))
  (s : jsstring) :
  Forall (fun e => includes c (fst e) = false) table ->
  In c (fold_left
          (fun w e =>
             if includes (snd e) w then replaceFirst (snd e) (fst e) w else w)
          table s) ->
  In c s.
Proof.
  intros Ht. revert s. induction Ht as [|e t Hk _ IH]; intros s;
    [trivial|].
  cbn [fold_left]. intros H. apply IH in H.
  destruct (includes (snd e) s); [|assumption].
  apply replaceFirst_In in H. destruct H as [H|H]; [assumption|].
  apply includes_false_iff in Hk. contradiction.
Qed.

(** The normalisation does not bring in a feet marker. *)
Lemma normalize_no_marker (s : jsstring) :
  includes APOSTROPHE s = false -> includes APOSTROPHE (normalize s) = false.
Proof.
  intros H. apply includes_false_iff. rewrite includes_false_iff in H.
  intros Hin. apply H. unfold normalize, substituteFractions in Hin.
  apply fold_glyphs_In in Hin; [|repeat constructor].
  unfold replaceAll in Hin. apply in_map_iff in Hin.
  destruct Hin as [x [Ex Hx]].
  unfold removeAll in Hx. apply filter_In in Hx. destruct Hx as [Hx _].
  destruct (x =? COMMA)%N; [discriminate Ex | now subst x].
Qed.

Lemma isCompound_no_marker (s : jsstring) :
  includes APOSTROPHE s = false -> isCompound s = false.
Proof.
  unfold includes, isCompound.
  destruct (indexOf APOSTROPHE s); [discriminate | reflexivity].
Qed.

Lemma parseStringForUnits_dashes (w : jsstring) (units : option Z) :
  parseStringForUnits (removeAll DASH w) units = parseStringForUnits w units.
Proof.
  unfold parseStringForUnits. now rewrite !strip_dashes, removeAll_idempotent.
Qed.

(** X3: dashes anywhere in an input without a feet marker are ignored, as long
    as something else is left of the input: a minus sign does not make a
    width negative, it is dropped. *)
Theorem dashes_are_ignored :
  forall (input : jsstring) (units : option Z),
    includes APOSTROPHE input = false ->
    removeAll DASH input <> [] ->
    processWidthInput (Some (removeAll DASH input)) units
    = processWidthInput (Some input) units.
Proof.
  intros input units Hm Hne. unfold processWidthInput.
  replace (inputTruthy (Some (removeAll DASH input))) with true
    by (destruct (removeAll DASH input); [contradiction | reflexivity]).
  replace (inputTruthy (Some input)) with true
    by (destruct input; [contradiction | reflexivity]).
  rewrite normalize_dashes.
  pose proof (normalize_no_marker input Hm) as Hn.
  rewrite (isCompound_no_marker (normalize input) Hn).
  rewrite (isCompound_no_marker (removeAll DASH (normalize input)))
    by (rewrite includes_removeAll; [assumption | discriminate]).
  now rewrite parseStringForUnits_dashes.
Qed.

Lemma dashes_are_ignored_witness :
  processWidthInput (Some (js "2.5m")) METRIC
  = processWidthInput (Some (js "-2.5-m")) METRIC.
Proof.
  apply (dashes_are_ignored (js "-2.5-m") METRIC).
  - reflexivity.
  - discriminate.
Defined.

(* ================================================================== *)
(** ** Formatting zero and NaN *)

Lemma remainder_of_falsy (v : number) :
  truthy v = false ->
  lookup (substr 1 (toString (sub v (floor v)))) IMPERIAL_VULGAR_FRACTIONS
  = None.
Proof.
  destruct v as [|s|q]; cbn [truthy]; intros H; [reflexivity|discriminate|].
  apply negb_false_iff, isZero_spec in H.
  cbn [floor]. unfold sub, neg, add.
  rewrite (Qred_complete _ 0); [reflexivity|].
  rewrite !Qred_correct, (Qfloor_comp _ _ H), H. reflexivity.
Qed.

(** X4: a width of zero, and a width that is not a number, is formatted as 0
    followed by the unit, in every unit system and every locale: the feet
    marker under IMPERIAL, a hair space (U+200A) and the letter m otherwise,
    after the break marker and its hair space when there is markup.  Under
    IMPERIAL no glyph is looked up for it, and no formatter is asked. *)
Theorem prettifyWidth_falsy :
  forall (locale : Locale) (v : number) (units : option Z) (markup : bool),
    truthy v = false ->
    prettifyWidth locale v units markup
    = js "0" ++ (if markup then WBR else [])
        ++ (if unitsIs units SETTINGS_UNITS_IMPERIAL then [APOSTROPHE]
            else (if markup then [HAIR_SPACE] else [])
                   ++ HAIR_SPACE :: js "m").
Proof.
  intros locale v units markup H. rewrite prettifyWidth_parts. f_equal.
  unfold numericText, getImperialMeasurementWithVulgarFractions.
  rewrite (remainder_of_falsy v H). unfold stringifyMeasurementValue.
  rewrite H. now destruct (unitsIs units SETTINGS_UNITS_IMPERIAL).
Qed.

Lemma prettifyWidth_falsy_witness :
  prettifyWidth en_US NaN IMPERIAL false = js "0'"
  /\ prettifyWidth en_US (Fin (0 # 7)) None true
     = js "0<wbr>" ++ [HAIR_SPACE; HAIR_SPACE] ++ js "m".
Proof.
  split.
  - apply (prettifyWidth_falsy en_US NaN IMPERIAL false). reflexivity.
  - apply (prettifyWidth_falsy en_US (Fin (0 # 7)) None true). reflexivity.
Defined.

(* ================================================================== *)
(** ** Reading a decimal followed by a unit *)

Lemma takeWhile_app_end (ds rest : jsstring) :
  Forall (fun x => isDigit x = true) ds -> terminator rest = true ->
  takeWhile isDigit (ds ++ rest) = ds /\ dropWhile isDigit (ds ++ rest) = rest.
Proof.
  intros Hds Hr. destruct rest as [|c r].
  - rewrite app_nil_r. induction Hds as [|d ds Hd _ [IH1 IH2]]; simpl.
    + now split.
    + rewrite Hd. split; [now f_equal | assumption].
  - apply takeWhile_app_stop; [assumption|].
    cbn [terminator] in Hr. apply negb_true_iff in Hr.
    now repeat (apply orb_false_iff in Hr; destruct Hr as [Hr _]).
Qed.

Lemma terminator_exponent (rest : jsstring) :
  terminator rest = true -> exponentPart rest = 0%Z.
Proof.
  destruct rest as [|c r]; [reflexivity|]. cbn [terminator exponentPart].
  intros H. apply negb_true_iff in H.
  apply orb_false_iff in H. destruct H as [H H69].
  apply orb_false_iff in H. destruct H as [_ H101].
  now rewrite H101, H69.
Qed.

Lemma terminator_period (rest : jsstring) :
  terminator rest = true ->
  match rest with
  | [] => True
  | c :: _ => (c =? PERIOD)%N = false
  end.
Proof.
  destruct rest as [|c r]; [trivial|]. cbn [terminator].
  intros H. apply negb_true_iff in H.
  apply orb_false_iff in H. destruct H as [H _].
  apply orb_false_iff in H. destruct H as [H _].
  apply orb_false_iff in H. now destruct H as [_ H].
Qed.

(** [parseFloat] reads a decimal up to the unit that follows it. *)
Lemma parseFloat_decimal (ip fp rest : jsstring) :
  Forall (fun c => isDigit c = true) ip ->
  Forall (fun c => isDigit c = true) fp ->
  ip ++ fp <> [] ->
  terminator rest = true ->
  parseFloat (decimalText ip fp ++ rest)
  = Fin (Qred (inject_Z (digitsValue (ip ++ fp))
               * Qpower 10 (0 - Z.of_nat (length fp)))).
Proof.
  intros Hip Hfp Hne Hrest.
  assert (Hhead : exists c r, decimalText ip fp ++ rest = c :: r
                              /\ (isDigit c = true \/ c = PERIOD)).
  { unfold decimalText. destruct ip as [|c ip'].
    - destruct fp as [|f fp']; [contradiction|].
      exists PERIOD. eexists. split; [reflexivity | now right].
    - exists c. eexists. split; [reflexivity|]. left. now inversion Hip. }
  destruct Hhead as [c [r [E Hc]]].
  assert (Hws : isWhiteSpace c = false).
  { destruct Hc as [Hc| ->]; [|reflexivity].
    apply (digit_test isWhiteSpace); [reflexivity | assumption]. }
  assert (Hplus : (c =? PLUS)%N = false).
  { destruct Hc as [Hc| ->]; [|reflexivity].
    apply (digit_test (fun x => (x =? PLUS)%N)); [reflexivity | assumption]. }
  assert (Hdash : (c =? DASH)%N = false).
  { destruct Hc as [Hc| ->]; [|reflexivity].
    apply (digit_test (fun x => (x =? DASH)%N)); [reflexivity | assumption]. }
  assert (Hinf : (73 =? c)%N = false).
  { destruct Hc as [Hc| ->]; [|reflexivity].
    apply (digit_test (fun x => (73 =? x)%N)); [reflexivity | assumption]. }
  unfold parseFloat. rewrite E. cbn [dropWhile]. rewrite Hws, Hplus, Hdash.
  unfold unsignedLiteral.
  replace (startsWith (js "Infinity") (c :: r)) with false
    by (change (js "Infinity") with (73%N :: js "nfinity");
        cbn [startsWith]; now rewrite Hinf).
  rewrite <- E. clear E Hws Hplus Hdash Hinf Hc c r.
  unfold decimalText. rewrite <- app_assoc.
  pose proof (terminator_exponent rest Hrest) as Hex.
  destruct fp as [|f fp'].
  - cbn [app].
    destruct (takeWhile_app_end ip rest Hip Hrest) as [-> ->].
    rewrite app_nil_r in Hne. destruct ip as [|i ip']; [contradiction|].
    pose proof (terminator_period rest Hrest) as Hp.
    destruct rest as [|c r]; rewrite ?Hp, ?Hex, app_nil_r; reflexivity.
  - change ((PERIOD :: f :: fp') ++ rest)
      with (PERIOD :: ((f :: fp') ++ rest)).
    destruct (takeWhile_app_stop isDigit ip ((f :: fp') ++ rest)
                PERIOD Hip eq_refl) as [-> ->].
    rewrite N.eqb_refl.
    destruct (takeWhile_app_end (f :: fp') rest Hfp Hrest) as [-> ->].
    rewrite Hex.
    destruct (ip ++ f :: fp') as [|x xs] eqn:Ex.
    + destruct ip; discriminate.
    + reflexivity.
Qed.

(** A decimal followed by a unit without dashes: the value of the decimal
    times the multiplier that the table, or else the unit system, gives. *)
Lemma parseStringForUnits_decimal (ip fp rest : jsstring) (units : option Z)
  (m : number) :
  Forall (fun c => isDigit c = true) ip ->
  Forall (fun c => isDigit c = true) fp ->
  ip ++ fp <> [] ->
  terminator rest = true ->
  includes DASH rest = false ->
  match findConversion (decimalText ip fp ++ rest) with
  | Some c => multiplier c
  | None => if unitsIs units SETTINGS_UNITS_METRIC
            then div (ofZ 1) IMPERIAL_METRIC_MULTIPLIER
            else ofZ 1
  end = m ->
  positive_number m ->
  exists x y,
    parseStringForUnits (decimalText ip fp ++ rest) units = Fin x
    /\ m = Fin y
    /\ (x == inject_Z (digitsValue (ip ++ fp))
             * Qpower 10 (0 - Z.of_nat (length fp)) * y)%Q.
Proof.
  intros Hip Hfp Hne Hrest Hdash Hm [y [Ey Hy]].
  exists (Qred (inject_Z (digitsValue (ip ++ fp))
                * Qpower 10 (0 - Z.of_nat (length fp)) * y)), y.
  split; [|split; [exact Ey | apply Qred_correct]].
  unfold parseStringForUnits.
  assert (Hd : includes DASH (decimalText ip fp ++ rest) = false).
  { rewrite includes_app, Hdash. unfold decimalText.
    rewrite includes_app, (digits_absent DASH ip eq_refl Hip).
    destruct fp as [|f fp']; [reflexivity|].
    change (PERIOD :: f :: fp') with ([PERIOD] ++ f :: fp').
    now rewrite includes_app, (digits_absent DASH (f :: fp') eq_refl Hfp). }
  rewrite Hd, parseFloat_decimal by assumption.
  set (v := (inject_Z (digitsValue (ip ++ fp))
             * Qpower 10 (0 - Z.of_nat (length fp)))%Q).
  destruct (truthy (Fin (Qred v))) eqn:Ht.
  - replace (match findConversion (decimalText ip fp ++ rest) with
             | Some {| multiplier := m0 |} => m0
             | None => if unitsIs units SETTINGS_UNITS_METRIC
                       then div (ofZ 1) IMPERIAL_METRIC_MULTIPLIER
                       else ofZ 1
             end) with m
      by (rewrite <- Hm; now destruct (findConversion _) as [[t m0]|]).
    rewrite Ey. cbn [mul]. f_equal. apply Qred_complete.
    now rewrite Qred_correct.
  - cbn [truthy] in Ht. apply negb_false_iff, isZero_spec in Ht.
    rewrite Qred_correct in Ht. unfold ofZ. f_equal. symmetry.
    apply Qred_zero. rewrite Ht. ring.
Qed.

(** The same, as the product that the program computes: the number of the
    digits times the multiplier. *)
Lemma parseStringForUnits_times (ip fp rest : jsstring) (units : option Z)
  (m : number) :
  Forall (fun c => isDigit c = true) ip ->
  Forall (fun c => isDigit c = true) fp ->
  ip ++ fp <> [] ->
  terminator rest = true ->
  includes DASH rest = false ->
  match findConversion (decimalText ip fp ++ rest) with
  | Some c => multiplier c
  | None => if unitsIs units SETTINGS_UNITS_METRIC
            then div (ofZ 1) IMPERIAL_METRIC_MULTIPLIER
            else ofZ 1
  end = m ->
  positive_number m ->
  parseStringForUnits (decimalText ip fp ++ rest) units
  = mul (parseFloat (decimalText ip fp)) m.
Proof.
  intros Hip Hfp Hne Hrest Hdash Hm [y [Ey Hy]].
  unfold parseStringForUnits.
  assert (Hd : includes DASH (decimalText ip fp ++ rest) = false).
  { rewrite includes_app, Hdash. unfold decimalText.
    rewrite includes_app, (digits_absent DASH ip eq_refl Hip).
    destruct fp as [|f fp']; [reflexivity|].
    change (PERIOD :: f :: fp') with ([PERIOD] ++ f :: fp').
    now rewrite includes_app, (digits_absent DASH (f :: fp') eq_refl Hfp). }
  rewrite Hd, parseFloat_decimal by assumption.
  rewrite <- (app_nil_r (decimalText ip fp)) at 2.
  rewrite (parseFloat_decimal ip fp []) by (assumption || reflexivity).
  set (v := (inject_Z (digitsValue (ip ++ fp))
             * Qpower 10 (0 - Z.of_nat (length fp)))%Q).
  destruct (truthy (Fin (Qred v))) eqn:Ht.
  - rewrite <- Hm. now destruct (findConversion _) as [[t m0]|].
  - cbn [truthy] in Ht. apply negb_false_iff in Ht.
    rewrite Ey. symmetry. now apply mul_falsy.
Qed.

(* ================================================================== *)
(** ** Inputs that the normalisation leaves as they are *)

Lemma inert_absent (x : jschar) (s : jsstring) :
  inert x = false -> Forall (fun c => inert c = true) s ->
  includes x s = false.
Proof.
  intros Hx Hs. apply includes_false_iff. intros Hin.
  rewrite Forall_forall in Hs. apply Hs in Hin. congruence.
Qed.

Lemma fold_glyphs_inert (table : list (jsstring * jschar)) (s : jsstring) :
  Forall (fun e => inert (snd e) = false) table ->
  Forall (fun c => inert c = true) s ->
  fold_left
    (fun w e => if includes (snd e) w then replaceFirst (snd e) (fst e) w else w)
    table s = s.
Proof.
  intros Ht Hs. induction Ht as [|e t He _ IH]; [reflexivity|].
  cbn [fold_left]. now rewrite (inert_absent (snd e) s He Hs).
Qed.

Lemma normalize_inert (s : jsstring) :
  Forall (fun c => inert c = true) s -> normalize s = s.
Proof.
  intros Hs. unfold normalize.
  rewrite removeAll_absent by (now apply inert_absent).
  rewrite replaceAll_absent by (now apply inert_absent).
  apply fold_glyphs_inert; [repeat constructor | assumption].
Qed.

Lemma inert_digits (s : jsstring) :
  Forall (fun c => isDigit c = true) s -> Forall (fun c => inert c = true) s.
Proof.
  apply Forall_impl. intros c Hc. apply negb_true_iff.
  apply (digit_test
           (fun c => (c =? SPACE)%N || (c =? COMMA)%N
                     || existsb (N.eqb c) (map snd IMPERIAL_VULGAR_FRACTIONS))
           c); [reflexivity | exact Hc].
Qed.

Lemma inert_decimalText (ip fp : jsstring) :
  Forall (fun c => isDigit c = true) ip ->
  Forall (fun c => isDigit c = true) fp ->
  Forall (fun c => inert c = true) (decimalText ip fp).
Proof.
  intros Hip Hfp. unfold decimalText. apply Forall_app. split.
  - now apply inert_digits.
  - destruct fp; [constructor|].
    constructor; [reflexivity | now apply inert_digits].
Qed.

Lemma decimalText_nonempty (ip fp : jsstring) :
  ip ++ fp <> [] -> decimalText ip fp <> [].
Proof.
  unfold decimalText. destruct ip, fp; simpl; try discriminate.
  intros H. contradiction.
Qed.

(* ================================================================== *)
(** ** Feet and inches written as decimals *)

(** After a digit, the inches marker selects the entry of the inches. *)
Lemma findConversion_inches (pre : jsstring) (d : jschar) :
  isDigit d = true ->
  findConversion (pre ++ [d; QUOTE])
  = Some {| text := [QUOTE]; multiplier := div (ofZ 1) (ofZ 12) |}.
Proof.
  intros Hd.
  assert (Hlit : forall (p : list atom) (x : jschar),
             (QUOTE =? x)%N = false ->
             matchesAtEnd (p ++ [Literal x]) (pre ++ [d; QUOTE]) = false).
  { intros p x Hx.
    change (pre ++ [d; QUOTE]) with (pre ++ [d] ++ [QUOTE]).
    rewrite app_assoc, matchesAtEnd_snoc. cbn [matchAtom]. now rewrite Hx. }
  unfold findConversion, WIDTH_INPUT_CONVERSION. cbn [find text].
  change (unitPattern (js "m")) with ([DigitOrPeriod] ++ [Literal 109%N]).
  rewrite Hlit by reflexivity.
  change (unitPattern (js "cm"))
    with ([DigitOrPeriod; Literal 99%N] ++ [Literal 109%N]).
  rewrite Hlit by reflexivity.
  change (unitPattern [QUOTE])
    with (([] ++ [DigitOrPeriod]) ++ [Literal QUOTE]).
  change (pre ++ [d; QUOTE]) with (pre ++ [d] ++ [QUOTE]).
  rewrite app_assoc, !matchesAtEnd_snoc, matchesAtEnd_nil.
  cbn [matchAtom]. rewrite Hd, N.eqb_refl. reflexivity.
Qed.

Lemma parseStringForUnits_feet (ip fp : jsstring) (units : option Z) :
  Forall (fun c => isDigit c = true) ip ->
  Forall (fun c => isDigit c = true) fp ->
  ip ++ fp <> [] ->
  parseStringForUnits (decimalText ip fp ++ [APOSTROPHE]) units
  = mul (parseFloat (decimalText ip fp)) (ofZ 1).
Proof.
  intros Hip Hfp Hne.
  apply parseStringForUnits_times; try assumption; try reflexivity.
  - destruct (decimalText_last ip fp Hip Hfp Hne) as [pre [d [-> Hd]]].
    rewrite <- app_assoc. cbn [app].
    now rewrite (findConversion_feet pre d Hd).
  - exists 1%Q. split; reflexivity.
Qed.

Lemma parseStringForUnits_inches (ip fp : jsstring) (units : option Z) :
  Forall (fun c => isDigit c = true) ip ->
  Forall (fun c => isDigit c = true) fp ->
  ip ++ fp <> [] ->
  parseStringForUnits (decimalText ip fp ++ [QUOTE]) units
  = mul (parseFloat (decimalText ip fp)) (div (ofZ 1) (ofZ 12)).
Proof.
  intros Hip Hfp Hne.
  apply parseStringForUnits_times; try assumption; try reflexivity.
  - destruct (decimalText_last ip fp Hip Hfp Hne) as [pre [d [-> Hd]]].
    rewrite <- app_assoc. cbn [app].
    now rewrite (findConversion_inches pre d Hd).
  - exists (1 # 12). split; reflexivity.
Qed.

(** X5: a decimal number of feet, the feet marker and a decimal number of
    inches, with or without the inches marker, give the sum
    feet * 1 + inches * (1 / 12) under every unit system that is given,
    METRIC as well: the feet are read with the multiplier of the feet marker
    and the inches with the multiplier of the inches marker, which is
    supplied when it is missing. *)
Theorem feet_and_inches_decimal :
  forall (ip fp ip' fp' : jsstring) (marker : bool) (units : option Z),
    Forall (fun c => isDigit c = true) ip ->
    Forall (fun c => isDigit c = true) fp ->
    Forall (fun c => isDigit c = true) ip' ->
    Forall (fun c => isDigit c = true) fp' ->
    ip ++ fp <> [] -> ip' ++ fp' <> [] ->
    unitsTruthy units = true ->
    processWidthInput
      (Some (decimalText ip fp ++ [APOSTROPHE] ++ decimalText ip' fp'
               ++ (if marker then [QUOTE] else []))) units
    = Return (Num (add (mul (parseFloat (decimalText ip fp)) (ofZ 1))
                       (mul (parseFloat (decimalText ip' fp'))
                            (div (ofZ 1) (ofZ 12))))).
Proof.
  intros ip fp ip' fp' marker units Hip Hfp Hip' Hfp' Hne Hne' Hu.
  set (inches := decimalText ip' fp' ++ (if marker then [QUOTE] else [])).
  assert (Hq : includes QUOTE (decimalText ip' fp') = false).
  { unfold decimalText.
    rewrite includes_app, (digits_absent QUOTE ip' eq_refl Hip').
    destruct fp' as [|f r]; [reflexivity|].
    change (PERIOD :: f :: r) with ([PERIOD] ++ f :: r).
    now rewrite includes_app, (digits_absent QUOTE (f :: r) eq_refl Hfp'). }
  assert (Hin : (if includes QUOTE inches then inches else inches ++ [QUOTE])
                = decimalText ip' fp' ++ [QUOTE]).
  { unfold inches. rewrite includes_app, Hq.
    destruct marker; [reflexivity|]. now rewrite app_nil_r. }
  rewrite (processWidthInput_two_parts _ units (decimalText ip fp) inches);
    try assumption.
  - rewrite Hin, parseStringForUnits_feet, parseStringForUnits_inches
      by assumption.
    reflexivity.
  - destruct (decimalText ip fp) eqn:E; [|reflexivity].
    now apply decimalText_nonempty in E.
  - apply normalize_inert.
    apply Forall_app. split; [now apply inert_decimalText|].
    apply Forall_app. split; [repeat constructor|].
    apply Forall_app. split; [now apply inert_decimalText|].
    destruct marker; repeat constructor.
  - now apply decimalText_no_marker.
  - unfold inches. rewrite includes_app, decimalText_no_marker by assumption.
    now destruct marker.
  - unfold inches. intros H. apply app_eq_nil in H. destruct H as [H _].
    now apply decimalText_nonempty in H.
Qed.

Lemma feet_and_inches_decimal_witness :
  processWidthInput (Some (js "1'5")) METRIC
  = Return (Num (add (mul (parseFloat (js "1")) (ofZ 1))
                     (mul (parseFloat (js "5")) (div (ofZ 1) (ofZ 12))))).
Proof.
  apply (feet_and_inches_decimal (js "1") [] (js "5") [] false METRIC);
    try (repeat constructor); try discriminate.
Defined.

(* ================================================================== *)
(** ** The units of the table after a decimal number *)

Lemma matchesAtEnd_rev (p : list atom) (s : jsstring) :
  matchesAtEnd p s = matchPrefix (rev p) (rev s).
Proof.
  revert s. induction p as [|a p IH] using rev_ind; intros s.
  - apply matchesAtEnd_nil.
  - rewrite rev_app_distr. cbn [rev app].
    destruct s as [|c s _] using rev_ind.
    + unfold matchesAtEnd. rewrite length_app. cbn [length].
      replace (length p + 1 <=? 0)%nat with false; [reflexivity|].
      symmetry. apply Nat.leb_gt. lia.
    + rewrite matchesAtEnd_snoc, rev_app_distr. cbn [rev app matchPrefix].
      now rewrite IH.
Qed.

Lemma digit_differs (d x : jschar) :
  isDigit d = true -> isDigit x = false -> (d =? x)%N = false.
Proof.
  intros Hd Hx. apply N.eqb_neq. intros ->. congruence.
Qed.

Lemma digit_or_period (d : jschar) :
  isDigit d = true -> matchAtom DigitOrPeriod d = true.
Proof. intros H. cbn [matchAtom]. now rewrite H. Qed.

Lemma findConversion_rev (w : jsstring) :
  findConversion w
  = find (fun c => matchPrefix (rev (unitPattern (text c))) (rev w))
         WIDTH_INPUT_CONVERSION.
Proof.
  unfold findConversion. induction WIDTH_INPUT_CONVERSION as [|c t IH].
  - reflexivity.
  - cbn [find]. now rewrite matchesAtEnd_rev, IH.
Qed.

(** Evaluates the patterns of the table on a string whose last code units
    are known and follow a digit [d]. *)
Ltac closed_tests :=
  repeat match goal with
         | |- context [N.eqb ?a ?b] =>
             let v := eval vm_compute in (N.eqb a b) in
             lazymatch v with
             | true => change (N.eqb a b) with true
             | false => change (N.eqb a b) with false
             end
         | |- context [isDigit ?a] =>
             let v := eval vm_compute in (isDigit a) in
             lazymatch v with
             | true => change (isDigit a) with true
             | false => change (isDigit a) with false
             end
         | |- context [isLineTerminator ?a] =>
             let v := eval vm_compute in (isLineTerminator a) in
             lazymatch v with
             | true => change (isLineTerminator a) with true
             | false => change (isLineTerminator a) with false
             end
         end.

Ltac digit_tests d Hd :=
  repeat match goal with
         | |- context [N.eqb d ?x] =>
             rewrite (digit_differs d x Hd eq_refl)
         | |- context [isDigit d] => rewrite Hd
         end.

Ltac closed_lists :=
  repeat match goal with
         | |- context [rev (unitPattern ?t)] =>
             let v := eval vm_compute in (rev (unitPattern t)) in
             change (rev (unitPattern t)) with v
         end.

Ltac find_unit d Hd :=
  rewrite findConversion_rev, rev_app_distr;
  unfold WIDTH_INPUT_CONVERSION;
  cbn [find text]; closed_lists;
  match goal with
  | |- context [rev (d :: ?t)] =>
      let v := eval vm_compute in (rev t) in
      change (rev (d :: t)) with (v ++ [d])
  end;
  repeat (cbn [matchPrefix matchAtom andb orb negb app];
          closed_tests; digit_tests d Hd);
  try reflexivity.

Lemma findConversion_unit (pre : jsstring) (d : jschar) (c : conversion) :
  isDigit d = true -> In c WIDTH_INPUT_CONVERSION ->
  findConversion (pre ++ d :: text c) = Some c.
Proof.
  intros Hd Hc. unfold WIDTH_INPUT_CONVERSION in Hc. cbn [In] in Hc.
  repeat (destruct Hc as [<-|Hc]; [cbn [text]; find_unit d Hd|]).
  contradiction.
Qed.

Lemma unit_texts_end_numbers :
  Forall (fun c => terminator (text c) = true
                   /\ includes DASH (text c) = false
                   /\ Forall (fun x => inert x = true) (text c)
                   /\ isCompound (text c) = false
                   /\ text c <> [])
         WIDTH_INPUT_CONVERSION.
Proof.
  unfold WIDTH_INPUT_CONVERSION.
  repeat constructor; cbn [text]; discriminate.
Qed.

Lemma indexOf_app_absent (x : jschar) (s t : jsstring) :
  includes x s = false ->
  indexOf x (s ++ t) = option_map (fun i => (length s + i)%nat) (indexOf x t).
Proof.
  rewrite includes_false_iff. induction s as [|y r IH]; intros H.
  - cbn [app length]. now destruct (indexOf x t).
  - cbn [app indexOf length].
    destruct (N.eqb_spec y x) as [->|Hne]; [exfalso; apply H; now left|].
    rewrite IH by (intros Hin; apply H; now right).
    now destruct (indexOf x t).
Qed.

Lemma isCompound_app_fresh (s t : jsstring) :
  includes APOSTROPHE s = false ->
  isCompound (s ++ t) = isCompound t.
Proof.
  intros Hs. unfold isCompound. rewrite indexOf_app_absent by assumption.
  destruct (indexOf APOSTROPHE t) as [i|]; [|reflexivity].
  cbn [option_map]. rewrite length_app.
  destruct (Nat.ltb_spec (i + 1) (length t));
    [apply Nat.ltb_lt | apply Nat.ltb_ge]; lia.
Qed.

(** An input that is normalised to a decimal number followed by code units
    that end the number: the result is the product that the program
    computes, the number of the digits times the multiplier. *)
Lemma processWidthInput_times (input ip fp rest : jsstring)
  (units : option Z) (m : number) :
  input <> [] ->
  normalize input = decimalText ip fp ++ rest ->
  Forall (fun x => isDigit x = true) ip ->
  Forall (fun x => isDigit x = true) fp ->
  ip ++ fp <> [] ->
  unitsTruthy units = true ->
  terminator rest = true ->
  includes DASH rest = false ->
  isCompound rest = false ->
  match findConversion (decimalText ip fp ++ rest) with
  | Some c => multiplier c
  | None => if unitsIs units SETTINGS_UNITS_METRIC
            then div (ofZ 1) IMPERIAL_METRIC_MULTIPLIER
            else ofZ 1
  end = m ->
  positive_number m ->
  processWidthInput (Some input) units
  = Return (Num (mul (parseFloat (decimalText ip fp)) m)).
Proof.
  intros Hin Hnorm Hip Hfp Hne Hu Hterm Hdash Hcomp Hm Hp.
  unfold processWidthInput. rewrite Hu.
  replace (inputTruthy (Some input)) with true
    by (destruct input; [contradiction | reflexivity]).
  cbn [negb orb]. rewrite Hnorm.
  rewrite isCompound_app_fresh, Hcomp
    by (now apply decimalText_no_marker).
  now rewrite (parseStringForUnits_times ip fp rest units m).
Qed.

(** X6: a decimal number followed by the text of any of the eleven units of
    the table gives the product of the number and the multiplier of that
    unit, under every unit system that is given: no entry of the table is
    shadowed by an earlier one. *)
Theorem unit_text_selects_its_multiplier :
  forall (ip fp : jsstring) (c : conversion) (units : option Z),
    Forall (fun x => isDigit x = true) ip ->
    Forall (fun x => isDigit x = true) fp ->
    ip ++ fp <> [] ->
    In c WIDTH_INPUT_CONVERSION ->
    unitsTruthy units = true ->
    processWidthInput (Some (decimalText ip fp ++ text c)) units
    = Return (Num (mul (parseFloat (decimalText ip fp)) (multiplier c))).
Proof.
  intros ip fp c units Hip Hfp Hne Hc Hu.
  pose proof unit_texts_end_numbers as Ht. rewrite Forall_forall in Ht.
  destruct (Ht c Hc) as [Hterm [Hdash [Hinert [Hcomp Htext]]]].
  pose proof conversion_positive as Hp. rewrite Forall_forall in Hp.
  specialize (Hp c Hc).
  apply (processWidthInput_times _ ip fp (text c)); try assumption.
  - intros H. apply app_eq_nil in H. now destruct H.
  - apply normalize_inert. apply Forall_app.
    split; [now apply inert_decimalText | assumption].
  - destruct (decimalText_last ip fp Hip Hfp Hne) as [pre [d [-> Hd]]].
    rewrite <- app_assoc. cbn [app].
    now rewrite (findConversion_unit pre d c Hd Hc).
Qed.

Lemma unit_text_selects_its_multiplier_witness :
  processWidthInput (Some (js "111cm")) METRIC
  = Return (Num (mul (parseFloat (js "111"))
                     (div (div (ofZ 1) (ofZ 100)) IMPERIAL_METRIC_MULTIPLIER))).
Proof.
  apply (unit_text_selects_its_multiplier (js "111") []
           {| text := js "cm";
              multiplier :=
                div (div (ofZ 1) (ofZ 100)) IMPERIAL_METRIC_MULTIPLIER |}
           METRIC).
  - repeat constructor.
  - constructor.
  - discriminate.
  - right. left. reflexivity.
  - reflexivity.
Defined.

(* ================================================================== *)
(** ** The period of a unit text in the pattern *)

Ltac find_unit_any d Hd c Hc :=
  rewrite findConversion_rev, rev_app_distr;
  unfold WIDTH_INPUT_CONVERSION;
  cbn [find text]; closed_lists;
  cbn [rev app matchPrefix matchAtom];
  closed_tests; rewrite ?Hd, ?Hc, ?andb_false_r;
  cbn [andb orb negb];
  try reflexivity.

Lemma findConversion_in_any (pre : jsstring) (d c : jschar) :
  isDigit d = true -> isLineTerminator c = false ->
  findConversion (pre ++ [d; 105; 110; c]%N)
  = Some {| text := js "in."; multiplier := div (ofZ 1) (ofZ 12) |}.
Proof. intros Hd Hc. find_unit_any d Hd c Hc. Qed.

Lemma findConversion_ft_any (pre : jsstring) (d c : jschar) :
  isDigit d = true -> isLineTerminator c = false ->
  findConversion (pre ++ [d; 102; 116; c]%N)
  = Some {| text := js "ft."; multiplier := ofZ 1 |}.
Proof. intros Hd Hc. find_unit_any d Hd c Hc. Qed.

Lemma isCompound_unit_any (a b c : jschar) :
  (a =? APOSTROPHE)%N = false -> (b =? APOSTROPHE)%N = false ->
  isCompound [a; b; c] = false.
Proof.
  intros Ha Hb. unfold isCompound. cbn [indexOf]. rewrite Ha, Hb.
  now destruct (c =? APOSTROPHE)%N.
Qed.

(** X7: the period of the unit texts 'in.' and 'ft.' is not escaped in the
    pattern: after a decimal number, 'in' or 'ft' followed by any one
    character that is not a line terminator (and that the normalisation
    keeps) is read as inches or as feet, under every unit system that is
    given: the result is the product of the number and the multiplier
    1 / 12 of the inches, or 1 of the feet. *)
Theorem period_of_unit_text_matches_any_character :
  forall (ip fp : jsstring) (c : jschar) (units : option Z),
    Forall (fun x => isDigit x = true) ip ->
    Forall (fun x => isDigit x = true) fp ->
    ip ++ fp <> [] ->
    isLineTerminator c = false -> inert c = true -> c <> DASH ->
    unitsTruthy units = true ->
    processWidthInput (Some (decimalText ip fp ++ js "in" ++ [c])) units
    = Return (Num (mul (parseFloat (decimalText ip fp))
                       (div (ofZ 1) (ofZ 12))))
    /\ processWidthInput (Some (decimalText ip fp ++ js "ft" ++ [c])) units
       = Return (Num (mul (parseFloat (decimalText ip fp)) (ofZ 1))).
Proof.
  intros ip fp c units Hip Hfp Hne Hc Hi Hd Hu.
  assert (Hdash : forall a b, (a =? DASH)%N = false -> (b =? DASH)%N = false ->
                              includes DASH [a; b; c] = false).
  { intros a b Ha Hb. unfold includes. cbn [indexOf]. rewrite Ha, Hb.
    apply N.eqb_neq in Hd. now rewrite Hd. }
  assert (Hin : forall a b, decimalText ip fp ++ [a; b; c] <> [])
    by (intros a b H; apply app_eq_nil in H; destruct H; discriminate).
  assert (Hnorm : forall a b, inert a = true -> inert b = true ->
                              normalize (decimalText ip fp ++ [a; b; c])
                              = decimalText ip fp ++ [a; b; c]).
  { intros a b Ha Hb. apply normalize_inert. apply Forall_app.
    split; [now apply inert_decimalText | now repeat constructor]. }
  destruct (decimalText_last ip fp Hip Hfp Hne) as [pre [d [Ed Hdg]]].
  split.
  - apply (processWidthInput_times _ ip fp (js "in" ++ [c]));
      try assumption; try reflexivity.
    + apply Hin.
    + now apply Hnorm.
    + now apply Hdash.
    + now apply isCompound_unit_any.
    + rewrite Ed, <- app_assoc.
      change ([d] ++ js "in" ++ [c]) with [d; 105; 110; c]%N.
      now rewrite (findConversion_in_any pre d c Hdg Hc).
    + exists (1 # 12). split; reflexivity.
  - apply (processWidthInput_times _ ip fp (js "ft" ++ [c]));
      try assumption; try reflexivity.
    + apply Hin.
    + now apply Hnorm.
    + now apply Hdash.
    + now apply isCompound_unit_any.
    + rewrite Ed, <- app_assoc.
      change ([d] ++ js "ft" ++ [c]) with [d; 102; 116; c]%N.
      now rewrite (findConversion_ft_any pre d c Hdg Hc).
    + exists 1%Q. split; reflexivity.
Qed.

Lemma period_of_unit_text_matches_any_character_witness :
  processWidthInput (Some (js "5inx")) METRIC
  = Return (Num (mul (parseFloat (js "5")) (div (ofZ 1) (ofZ 12))))
  /\ processWidthInput (Some (js "5ftx")) METRIC
     = Return (Num (mul (parseFloat (js "5")) (ofZ 1))).
Proof.
  apply (period_of_unit_text_matches_any_character (js "5") [] 120%N METRIC);
    try reflexivity; try discriminate; repeat constructor.
Defined.

(* ================================================================== *)
(** ** Reading back a metric text *)

Lemma dropWhile_head (p : jschar -> bool) (c : jschar) (r : jsstring) :
  p c = false -> dropWhile p (c :: r) = c :: r.
Proof. intros H. cbn [dropWhile]. now rewrite H. Qed.

Lemma digit_not_space (c : jschar) : isDigit c = true -> isWhiteSpace c = false.
Proof. apply (digit_test isWhiteSpace). reflexivity. Qed.

(** ToNumber on a decimal with integer and fraction digits. *)
Lemma ofString_decimal (ip fp : jsstring) :
  Forall (fun c => isDigit c = true) ip ->
  Forall (fun c => isDigit c = true) fp ->
  ip <> [] -> fp <> [] ->
  ofString (decimalText ip fp)
  = Fin (Qred (inject_Z (digitsValue (ip ++ fp))
               * Qpower 10 (0 - Z.of_nat (length fp)))).
Proof.
  intros Hip Hfp Hi Hf.
  assert (Hne : ip ++ fp <> []) by (destruct ip; [contradiction | discriminate]).
  unfold ofString.
  destruct (decimalText_last ip fp Hip Hfp Hne) as [pre [d [Ed Hd]]].
  assert (Ht : rev (dropWhile isWhiteSpace
                      (rev (dropWhile isWhiteSpace (decimalText ip fp))))
               = decimalText ip fp).
  { destruct ip as [|c ip']; [contradiction|].
    change (decimalText (c :: ip') fp) with (c :: decimalText ip' fp) in *.
    rewrite dropWhile_head
      by (apply digit_not_space; now inversion Hip).
    rewrite Ed, rev_app_distr. cbn [rev app].
    rewrite dropWhile_head by (now apply digit_not_space).
    change (d :: rev pre) with (rev [d] ++ rev pre).
    now rewrite <- rev_app_distr, rev_involutive. }
  rewrite Ht.
  destruct ip as [|c ip']; [contradiction|].
  change (decimalText (c :: ip') fp) with (c :: decimalText ip' fp).
  assert (Hc : isDigit c = true) by (now inversion Hip).
  cbv beta iota zeta.
  rewrite (digit_test (fun x => (x =? PLUS) || (x =? DASH))%N c eq_refl Hc).
  change (c :: decimalText ip' fp) with (decimalText (c :: ip') fp).
  assert (Hlen : literalLength (decimalText (c :: ip') fp)
                 = length (decimalText (c :: ip') fp)).
  { unfold literalLength.
    replace (startsWith (js "Infinity") (decimalText (c :: ip') fp)) with false.
    2:{ change (decimalText (c :: ip') fp) with (c :: decimalText ip' fp).
        change (js "Infinity") with (73%N :: js "nfinity").
        cbn [startsWith]. rewrite N.eqb_sym.
        now rewrite (digit_differs c 73%N Hc eq_refl). }
    destruct fp as [|f fp']; [contradiction|].
    unfold decimalText.
    destruct (takeWhile_app_stop isDigit (c :: ip') (f :: fp') PERIOD Hip
                eq_refl) as [-> ->].
    rewrite N.eqb_refl.
    destruct (takeWhile_app_end (f :: fp') [] Hfp eq_refl) as [E1 E2].
    rewrite app_nil_r in E1, E2. rewrite E1, E2.
    rewrite length_app. cbn [length]. lia. }
  rewrite Hlen, Nat.eqb_refl.
  rewrite <- (app_nil_r (decimalText (c :: ip') fp)).
  now apply parseFloat_decimal.
Qed.

Lemma padLeft_length (k : nat) (s : jsstring) :
  (k <= length (padLeft k s))%nat.
Proof. unfold padLeft. rewrite length_app, repeat_length. lia. Qed.

Lemma ofString_toFixed (q : Q) :
  (0 <= Qnum q)%Z -> (Qnum q < 1000 * Zpos (Qden q))%Z ->
  ofString (toFixed 3 (Fin q))
  = Fin (Qred (inject_Z (scaled q 3) * Qpower 10 (0 - 3))).
Proof.
  intros H0 H1. unfold toFixed.
  rewrite Qabs_nonneg_num by assumption.
  replace (Qle_bool (inject_Z (10 ^ 21)) q) with false.
  2:{ symmetry. unfold Qle_bool. apply Z.leb_gt.
      change (10 ^ 21)%Z with 1000000000000000000000%Z.
      cbn [inject_Z Qnum Qden]. lia. }
  replace (isNegative q) with false
    by (symmetry; apply Z.ltb_ge; exact H0).
  change (Z.of_nat 3) with 3%Z.
  set (n := Z.to_N (scaled q 3)).
  set (m := padLeft 4 (digits n)).
  set (k := (length m - 3)%nat).
  pose proof (padLeft_length 4 (digits n)) as Hlen. fold m in Hlen.
  assert (Hm : Forall (fun c => isDigit c = true) m)
    by (apply padLeft_Forall; [reflexivity | apply digits_digits]).
  rewrite <- (firstn_skipn k m) in Hm. apply Forall_app in Hm.
  destruct Hm as [Hip Hfp].
  assert (Hl : length (skipn k m) = 3%nat) by (rewrite length_skipn; lia).
  change ([] ++ firstn k m ++ PERIOD :: skipn k m)
    with (firstn k m ++ PERIOD :: skipn k m).
  replace (firstn k m ++ PERIOD :: skipn k m)
    with (decimalText (firstn k m) (skipn k m))
    by (unfold decimalText; destruct (skipn k m); [discriminate | reflexivity]).
  rewrite ofString_decimal; try assumption.
  - rewrite firstn_skipn, Hl. unfold m, padLeft.
    rewrite digitsValue_zeros_left, digits_value. unfold n.
    rewrite Z2N.id; [reflexivity|].
    unfold scaled. cbn [Z.leb Z.compare]. apply roundDiv_nonneg; lia.
  - intros E. apply (f_equal (@length _)) in E.
    rewrite length_firstn in E. cbn [length] in E. lia.
  - intros E. rewrite E in Hl. discriminate.
Qed.

Lemma roundDiv_exact (n : Z) (b : positive) : roundDiv (n * Zpos b) (Zpos b) = n.
Proof.
  unfold roundDiv. symmetry.
  apply (Z.div_unique _ _ n (Zpos b)); lia.
Qed.

Lemma scaled_exact (q : Q) (n : Z) : (q == n # 1000)%Q -> scaled q 3 = n.
Proof.
  intros H. unfold scaled. cbn [Z.leb Z.compare].
  change (10 ^ 3)%Z with 1000%Z.
  unfold Qeq in H. cbn [Qnum Qden] in H. change (Z.pos 1000) with 1000%Z in H.
  rewrite H. apply roundDiv_exact.
Qed.

Lemma thousandths (n : Z) :
  (Qred (inject_Z n * Qpower 10 (0 - 3)) == n # 1000)%Q.
Proof.
  rewrite Qred_correct. change (Qpower 10 (0 - 3)) with (1 # 1000)%Q.
  unfold Qeq. cbn [inject_Z Qmult Qnum Qden]. lia.
Qed.

(** The nearest thousandth is within half a thousandth. *)
Lemma scaled_bound (w : Q) :
  let n := scaled w 3 in
  (w - (1 # 2000) <= n # 1000 /\ n # 1000 <= w + (1 # 2000))%Q.
Proof.
  destruct w as [a b]. unfold scaled. cbn [Z.leb Z.compare Qnum Qden].
  change (10 ^ 3)%Z with 1000%Z.
  pose proof (roundDiv_spec (a * 1000) (Zpos b) eq_refl) as H.
  set (n := roundDiv (a * 1000) (Zpos b)) in *. cbv zeta.
  unfold Qle, Qminus, Qplus, Qopp. cbn [Qnum Qden].
  rewrite !Pos2Z.inj_mul. change (Z.pos 1000) with 1000%Z.
  change (Z.pos 2000) with 2000%Z. split; lia.
Qed.

Lemma normalize_locale_decimal (dec : jschar) (ip fs rest : jsstring) :
  dec = PERIOD \/ dec = COMMA ->
  Forall (fun c => isDigit c = true) ip ->
  Forall (fun c => isDigit c = true) fs ->
  Forall (fun c => inert c = true) rest ->
  normalize ((ip ++ match fs with
                    | [] => []
                    | _ :: _ => dec :: fs
                    end) ++ rest)
  = decimalText ip fs ++ rest.
Proof.
  intros Hdec Hip Hfs Hrest.
  assert (Hi : Forall (fun c => inert c = true) (decimalText ip fs ++ rest))
    by (apply Forall_app; split; [now apply inert_decimalText | assumption]).
  destruct Hdec as [->| ->]; [exact (normalize_inert _ Hi)|].
  rewrite <- normalize_commas.
  replace (replaceAll COMMA PERIOD
             ((ip ++ match fs with
                     | [] => []
                     | _ :: _ => COMMA :: fs
                     end) ++ rest))
    with (decimalText ip fs ++ rest);
    [exact (normalize_inert _ Hi)|].
  unfold decimalText. rewrite !replaceAll_app.
  rewrite (replaceAll_absent COMMA PERIOD ip)
    by (apply inert_absent; [reflexivity | now apply inert_digits]).
  rewrite (replaceAll_absent COMMA PERIOD rest)
    by (now apply inert_absent).
  destruct fs as [|f fs']; [reflexivity|].
  change (replaceAll COMMA PERIOD (COMMA :: f :: fs'))
    with (PERIOD :: replaceAll COMMA PERIOD (f :: fs')).
  rewrite (replaceAll_absent COMMA PERIOD (f :: fs'))
    by (apply inert_absent; [reflexivity | now apply inert_digits]).
  reflexivity.
Qed.

(** The text of a formatted number and what follows it, as the parser sees
    them. *)
Lemma normalize_formatted (dec : jschar) (ip fs rest : jsstring) :
  dec = PERIOD \/ dec = COMMA ->
  Forall (fun c => isDigit c = true) ip ->
  Forall (fun c => isDigit c = true) fs ->
  Forall (fun c => inert c = true) (removeAll SPACE rest) ->
  normalize ((ip ++ match fs with
                    | [] => []
                    | _ :: _ => dec :: fs
                    end) ++ rest)
  = decimalText ip fs ++ removeAll SPACE rest.
Proof.
  intros Hdec Hip Hfs Hrest. rewrite <- normalize_spaces.
  set (t := ip ++ match fs with [] => [] | _ :: _ => dec :: fs end).
  assert (Ht : includes SPACE t = false).
  { unfold t. rewrite includes_app.
    rewrite (digits_absent SPACE ip eq_refl Hip).
    destruct fs as [|f fs']; [reflexivity|].
    change (dec :: f :: fs') with ([dec] ++ f :: fs').
    rewrite includes_app, (digits_absent SPACE (f :: fs') eq_refl Hfs).
    now destruct Hdec as [->| ->]. }
  rewrite removeAll_app, (removeAll_absent SPACE t Ht).
  now apply normalize_locale_decimal.
Qed.

Lemma processWidthInput_normalized (input ip fp rest : jsstring)
  (units : option Z) (m : number) :
  input <> [] ->
  normalize input = decimalText ip fp ++ rest ->
  Forall (fun x => isDigit x = true) ip ->
  Forall (fun x => isDigit x = true) fp ->
  ip ++ fp <> [] ->
  unitsTruthy units = true ->
  terminator rest = true ->
  includes DASH rest = false ->
  isCompound rest = false ->
  match findConversion (decimalText ip fp ++ rest) with
  | Some c => multiplier c
  | None => if unitsIs units SETTINGS_UNITS_METRIC
            then div (ofZ 1) IMPERIAL_METRIC_MULTIPLIER
            else ofZ 1
  end = m ->
  positive_number m ->
  exists x y,
    processWidthInput (Some input) units = Return (Num (Fin x))
    /\ m = Fin y
    /\ (x == decimalValue ip fp * y)%Q.
Proof.
  intros Hin Hnorm Hip Hfp Hne Hu Hterm Hdash Hcomp Hm Hp.
  destruct (parseStringForUnits_decimal ip fp rest units m)
    as [x [y [E [Em Hx]]]]; try assumption.
  exists x, y. split; [|split; [exact Em | exact Hx]].
  unfold processWidthInput. rewrite Hu.
  replace (inputTruthy (Some input)) with true
    by (destruct input; [contradiction | reflexivity]).
  cbn [negb orb]. rewrite Hnorm.
  rewrite isCompound_app_fresh, Hcomp, E;
    [reflexivity | now apply decimalText_no_marker].
Qed.

(** No unit of the table is matched in the metric text: the letter m
    follows a hair space, not a digit. *)
Lemma findConversion_metric (pre : jsstring) (d : jschar) :
  isDigit d = true ->
  findConversion (pre ++ d :: HAIR_SPACE :: js "m") = None.
Proof. intros Hd. find_unit d Hd. Qed.

Lemma findConversion_markup (pre : jsstring) (d : jschar) :
  isDigit d = true ->
  findConversion
    (pre ++ d :: WBR ++ [HAIR_SPACE] ++ HAIR_SPACE :: js "m") = None.
Proof. intros Hd. find_unit d Hd. Qed.

(** The digits of a formatted number with the metric suffix, with or without
    the markup, read in the metric system: the hair spaces stay in the
    input, no unit is matched, and the number is taken as metres. *)
Lemma metric_text_value (l : Locale) (ip fs : jsstring) (markup : bool) :
  decimalSeparator l = PERIOD \/ decimalSeparator l = COMMA ->
  Forall (fun c => isDigit c = true) ip ->
  Forall (fun c => isDigit c = true) fs ->
  ip <> [] ->
  let t := ip ++ match fs with
                 | [] => []
                 | _ :: _ => decimalSeparator l :: fs
                 end in
  exists x,
    processWidthInput
      (Some ((if markup then t ++ WBR ++ [HAIR_SPACE] else t)
               ++ HAIR_SPACE :: js "m")) METRIC
    = Return (Num (Fin x))
    /\ (x == decimalValue ip fs * (10 # 3))%Q.
Proof.
  intros Hdec Hip Hfs Hi t.
  assert (Hne : ip ++ fs <> [])
    by (intros H; apply app_eq_nil in H; now destruct H).
  destruct (decimalText_last ip fs Hip Hfs Hne) as [pre [d [Ed Hd]]].
  assert (Hy : forall y, Fin (10 # 3) = Fin y -> y = 10 # 3) by congruence.
  destruct markup.
  - destruct (processWidthInput_normalized
                ((t ++ WBR ++ [HAIR_SPACE]) ++ HAIR_SPACE :: js "m") ip fs
                (WBR ++ [HAIR_SPACE] ++ HAIR_SPACE :: js "m") METRIC
                (Fin (10 # 3)))
      as [x [y [E [Ey Hx]]]]; try assumption; try reflexivity.
    + intros H. apply app_eq_nil in H. destruct H as [_ H]. discriminate.
    + rewrite <- app_assoc.
      apply (normalize_formatted (decimalSeparator l) ip fs
               ((WBR ++ [HAIR_SPACE]) ++ HAIR_SPACE :: js "m"));
        try assumption.
      repeat constructor.
    + rewrite Ed, <- app_assoc.
      pose proof (findConversion_markup pre d Hd) as F.
      cbn [app] in F |- *. now rewrite F.
    + exists (10 # 3). split; reflexivity.
    + exists x. split; [exact E|]. now rewrite Hx, (Hy y Ey).
  - destruct (processWidthInput_normalized
                (t ++ HAIR_SPACE :: js "m") ip fs (HAIR_SPACE :: js "m")
                METRIC (Fin (10 # 3)))
      as [x [y [E [Ey Hx]]]]; try assumption; try reflexivity.
    + intros H. apply app_eq_nil in H. destruct H as [_ H]. discriminate.
    + apply (normalize_formatted (decimalSeparator l) ip fs
               (HAIR_SPACE :: js "m")); try assumption.
      repeat constructor.
    + rewrite Ed, <- app_assoc. cbn [app].
      now rewrite (findConversion_metric pre d Hd).
    + exists (10 # 3). split; reflexivity.
    + exists x. split; [exact E|]. now rewrite Hx, (Hy y Ey).
Qed.

Lemma metric_roundtrip (l : Locale) (q : Q) (markup : bool) :
  decimalSeparator l = PERIOD \/ decimalSeparator l = COMMA ->
  (0 <= q)%Q -> (q * (3 # 10) < 9999995 # 10000)%Q ->
  truthy (Fin q) = true ->
  let t := stringifyMeasurementValue l (Fin q) METRIC in
  exists x,
    processWidthInput
      (Some ((if markup then t ++ WBR ++ [HAIR_SPACE] else t)
               ++ HAIR_SPACE :: js "m")) METRIC
    = Return (Num (Fin x))
    /\ (Qabs (x - q) <= 1 # 600)%Q.
Proof.
  intros Hdec H0 H1 Ht. unfold stringifyMeasurementValue.
  rewrite Ht. cbn [negb].
  change (unitsIs METRIC SETTINGS_UNITS_IMPERIAL) with false. cbv iota.
  unfold convertImperialMeasurementToMetric.
  change IMPERIAL_METRIC_MULTIPLIER with (Fin (3 # 10)).
  change METRIC_PRECISION with 3%nat. cbn [mul].
  set (w := Qred (q * (3 # 10))).
  assert (Hw : (w == q * (3 # 10))%Q) by apply Qred_correct.
  clearbody w.
  assert (Hw0 : (0 <= Qnum w)%Z).
  { assert (H : (0 <= w)%Q) by (rewrite Hw; lra).
    unfold Qle in H. cbn [Qnum Qden] in H. lia. }
  assert (Hw1 : (Qnum w * 10000 < 9999995 * Zpos (Qden w))%Z).
  { assert (H : (w < 9999995 # 10000)%Q) by (now rewrite Hw).
    unfold Qlt in H. cbn [Qnum Qden] in H. lia. }
  rewrite ofString_toFixed by lia.
  pose proof (scaled_bound w) as Hb. cbv zeta in Hb.
  assert (Hn : (0 <= scaled w 3 < 1000000)%Z).
  { unfold scaled. cbn [Z.leb Z.compare]. change (10 ^ 3)%Z with 1000%Z.
    pose proof (roundDiv_spec (Qnum w * 1000) (Zpos (Qden w)) eq_refl) as H.
    pose proof (roundDiv_nonneg (Qnum w * 1000) (Zpos (Qden w))) as H'.
    split; [apply H'; lia|].
    set (k := roundDiv (Qnum w * 1000) (Zpos (Qden w))) in *. nia. }
  set (n := scaled w 3) in *. clearbody n.
  pose proof (thousandths n) as Hr.
  set (r := Qred (inject_Z n * Qpower 10 (0 - 3))) in *. clearbody r.
  assert (Hr0 : (0 <= Qnum r)%Z).
  { unfold Qeq in Hr. cbn [Qnum Qden] in Hr.
    change (Z.pos 1000) with 1000%Z in Hr. nia. }
  rewrite format_small
    by (try assumption; rewrite (scaled_exact r n Hr); lia).
  rewrite (scaled_exact r n Hr).
  set (N := Z.to_N n).
  assert (HN : Z.of_N N = n) by (unfold N; rewrite Z2N.id; lia).
  destruct (fraction_digits (N mod 1000)) as [Hfs [j [Hj Hv]]].
  { apply N.mod_lt. discriminate. }
  set (ip := digits (N / 1000)) in *.
  set (fs := stripZeros (padLeft 3 (digits (N mod 1000)))) in *.
  assert (Hip : Forall (fun c => isDigit c = true) ip)
    by apply digits_digits.
  destruct (metric_text_value l ip fs markup Hdec Hip Hfs
              (digits_nonempty _)) as [x [E Hx]].
  exists x. split; [exact E|].
  assert (Hd : (decimalValue ip fs == n # 1000)%Q).
  { assert (Hx' : (decimalValue ip fs
                   == inject_Z (Z.of_N (N / 1000) * 10 ^ Z.of_nat (length fs)
                                + digitsValue fs)
                      * Qpower 10 (0 - Z.of_nat (length fs)))%Q).
    { unfold decimalValue. rewrite digitsValue_app. unfold ip.
      rewrite digits_value. reflexivity. }
    rewrite (decimal_value _ _ _ _ _ j Hx' Hv Hj).
    replace (Z.of_N (N / 1000) * 1000 + Z.of_N (N mod 1000))%Z
      with (Z.of_N N); [now rewrite HN|].
    rewrite N2Z.inj_div, N2Z.inj_mod. change (Z.of_N 1000) with 1000%Z.
    pose proof (Z.div_mod (Z.of_N N) 1000). lia. }
  rewrite Hx, Hd. destruct Hb as [Hb1 Hb2].
  rewrite Hw in Hb1, Hb2.
  apply Qabs_Qle_condition. split; lra.
Qed.

(** X8: reading back the METRIC text of a width below 3333, with or without
    the markup, gives the width to within 1/500.  The metric value is
    rounded to thousandths, and a thousandth of a metre is 1/300 of the unit
    of the width: the error is at most 1/600 in exact arithmetic, and the
    bound leaves room for the rounding of binary64.  The hair spaces of the
    text keep the letter m from being matched as a unit, and the number is
    read as metres by the default of METRIC.  The locale has a period or a
    comma as its decimal separator; below 3333 the metric value is below
    1000 and no group separator is written. *)
Theorem metric_text_reads_back :
  forall (l : Locale) (q : Q) (markup : bool),
    decimalSeparator l = PERIOD \/ decimalSeparator l = COMMA ->
    (0 <= q)%Q -> (q < 3333)%Q ->
    exists r,
      processWidthInput (Some (prettifyWidth l (Fin q) METRIC markup)) METRIC
      = Return (Num r)
      /\ withinMetricRounding (Fin q) r.
Proof.
  intros l q markup Hdec H0 H1. unfold prettifyWidth.
  change (unitsIs METRIC SETTINGS_UNITS_IMPERIAL) with false. cbv iota.
  destruct (truthy (Fin q)) eqn:Ht.
  - assert (H2 : (q * (3 # 10) < 9999995 # 10000)%Q) by lra.
    destruct (metric_roundtrip l q markup Hdec H0 H2 Ht) as [x [E Hx]].
    exists (Fin x). split; [exact E|].
    unfold withinMetricRounding.
    apply Qle_trans with (1 # 600)%Q; [exact Hx|]. unfold Qle. simpl. lia.
  - exists (ofZ 0). unfold stringifyMeasurementValue.
    change (Some SETTINGS_UNITS_METRIC) with METRIC. rewrite Ht.
    split; [destruct markup; vm_compute; reflexivity|].
    cbn [truthy] in Ht. apply negb_false_iff in Ht.
    unfold isZero in Ht. apply Z.eqb_eq in Ht.
    assert (Hq : (q == 0)%Q) by (unfold Qeq; cbn [Qnum Qden]; lia).
    unfold withinMetricRounding, ofZ. change (inject_Z 0) with 0%Q.
    rewrite Hq. apply Qabs_Qle_condition. split; lra.
Qed.

Lemma metric_text_reads_back_witness :
  exists r,
    processWidthInput
      (Some (prettifyWidth en_US (Fin (1234 # 100)) METRIC true)) METRIC
    = Return (Num r)
    /\ withinMetricRounding (Fin (1234 # 100)) r.
Proof.
  apply metric_text_reads_back.
  - left. reflexivity.
  - unfold Qle. simpl. lia.
  - unfold Qlt. simpl. lia.
Defined.

(* ================================================================== *)
(** ** Reading back an imperial text exactly *)

(** The remainders that are whole thousandths: a glyph is found only for
    the value of its key. *)
Lemma thousandth_glyphs :
  forallb
    (fun j =>
       match lookup (substr 1 (toString (Fin (Qred (Z.of_nat j # 1000)))))
               IMPERIAL_VULGAR_FRACTIONS with
       | Some g =>
           existsb (fun e => (snd e =? g)%N
                             && Qeq_bool (keyValue (fst e)) (Z.of_nat j # 1000))
             IMPERIAL_VULGAR_FRACTIONS
       | None => true
       end) (seq 0 1000) = true.
Proof. vm_compute. reflexivity. Qed.

Lemma remainder_glyph (r : Q) (j : Z) (g : jschar) :
  (0 <= j < 1000)%Z -> (r == j # 1000)%Q ->
  lookup (substr 1 (toString (Fin (Qred r)))) IMPERIAL_VULGAR_FRACTIONS = Some g ->
  exists key, In (key, g) IMPERIAL_VULGAR_FRACTIONS
              /\ (keyValue key == r)%Q.
Proof.
  intros Hj Hr Hg.
  pose proof thousandth_glyphs as H. rewrite forallb_forall in H.
  specialize (H (Z.to_nat j)).
  rewrite Z2Nat.id in H by lia.
  rewrite (Qred_complete _ _ Hr) in Hg. rewrite Hg in H.
  assert (Hin : In (Z.to_nat j) (seq 0 1000)) by (apply in_seq; lia).
  apply H in Hin. apply existsb_exists in Hin.
  destruct Hin as [[key g'] [Hin Hk]]. cbn [fst snd] in Hk.
  apply andb_true_iff in Hk. destruct Hk as [Hk1 Hk2].
  apply N.eqb_eq in Hk1. subst g'. apply Qeq_bool_iff in Hk2.
  exists key. split; [exact Hin|]. now rewrite Hr.
Qed.

(** The IMPERIAL text of a whole number of feet followed by a glyph. *)
Lemma glyph_text_value (l : Locale) (fl : Z) (key : jsstring) (g : jschar) :
  (0 <= fl < 1000)%Z ->
  In (key, g) IMPERIAL_VULGAR_FRACTIONS ->
  exists x,
    processWidthInput
      (Some ((if truthy (Fin (inject_Z fl))
              then stringifyMeasurementValue l (Fin (inject_Z fl)) IMPERIAL
                     ++ [g]
              else [g]) ++ [APOSTROPHE])) IMPERIAL = Return (Num (Fin x))
    /\ (x == inject_Z fl + keyValue key)%Q.
Proof.
  intros Hfl Hin.
  destruct (key_digits key g Hin) as [d [kd [-> Hkd]]].
  set (ip := if truthy (Fin (inject_Z fl)) then digits (Z.to_N fl) else []).
  assert (Hip : Forall (fun c => isDigit c = true) ip)
    by (unfold ip; destruct (truthy _); [apply digits_digits | constructor]).
  assert (Hv : digitsValue ip = fl).
  { unfold ip. destruct (truthy (Fin (inject_Z fl))) eqn:Ht.
    - rewrite digits_value. lia.
    - cbn [truthy] in Ht. apply negb_false_iff in Ht.
      unfold isZero in Ht. cbn [inject_Z Qnum] in Ht.
      apply Z.eqb_eq in Ht. now rewrite Ht. }
  assert (Etext : (if truthy (Fin (inject_Z fl))
                   then stringifyMeasurementValue l (Fin (inject_Z fl))
                          IMPERIAL ++ [g]
                   else [g]) = ip ++ [g]).
  { unfold ip. destruct (truthy (Fin (inject_Z fl))) eqn:Ht; [|reflexivity].
    rewrite stringify_integer; [reflexivity|].
    cbn [truthy] in Ht. apply negb_true_iff in Ht.
    unfold isZero in Ht. cbn [inject_Z Qnum] in Ht.
    apply Z.eqb_neq in Ht. lia. }
  rewrite Etext.
  destruct (processWidthInput_decimal ((ip ++ [g]) ++ [APOSTROPHE]) ip
              (d :: kd)) as [x [E Hx]]; try assumption.
  - intros H. apply app_eq_nil in H. destruct H as [_ H]. discriminate.
  - rewrite (normalize_glyph _ g ip Hin Hip). unfold decimalText.
    now rewrite <- app_assoc.
  - intros H. apply app_eq_nil in H. destruct H as [_ H]. discriminate.
  - exists x. split; [exact E|].
    rewrite Hx, digitsValue_app, Hv, Qpower10_neg. unfold keyValue.
    cbn [tl]. rewrite inject_Z_plus, inject_Z_mult.
    assert (HP : ~ (inject_Z (10 ^ Z.of_nat (length (d :: kd))) == 0)%Q).
    { assert (0 < 10 ^ Z.of_nat (length (d :: kd)))%Z
        by (apply Z.pow_pos_nonneg; lia).
      unfold Qeq. cbn [inject_Z Qnum Qden]. lia. }
    field. exact HP.
Qed.

(** The IMPERIAL text of a number without a glyph denotes the number
    rounded to thousandths. *)
Lemma decimal_text_value (l : Locale) (q : Q) :
  decimalSeparator l = PERIOD \/ decimalSeparator l = COMMA ->
  (0 <= Qnum q)%Z -> (scaled q 3 < 1000000)%Z ->
  truthy (Fin q) = true ->
  exists x,
    processWidthInput
      (Some (stringifyMeasurementValue l (Fin q) IMPERIAL ++ [APOSTROPHE]))
      IMPERIAL = Return (Num (Fin x))
    /\ (x == scaled q 3 # 1000)%Q.
Proof.
  intros Hdec H0 H1 Ht. unfold stringifyMeasurementValue.
  rewrite Ht. cbn [negb].
  change (unitsIs IMPERIAL SETTINGS_UNITS_IMPERIAL) with true. cbv iota.
  change IMPERIAL_PRECISION with 3%nat.
  assert (Hs : (0 <= scaled q 3)%Z).
  { unfold scaled. cbn [Z.leb Z.compare]. apply roundDiv_nonneg; lia. }
  rewrite format_small by (try assumption; lia).
  set (n := Z.to_N (scaled q 3)).
  assert (Hn : Z.of_N n = scaled q 3) by (unfold n; rewrite Z2N.id; lia).
  destruct (fraction_digits (n mod 1000)) as [Hfs [j [Hj Hv]]].
  { apply N.mod_lt. discriminate. }
  set (ip := digits (n / 1000)) in *.
  set (fs := stripZeros (padLeft 3 (digits (n mod 1000)))) in *.
  assert (Hip : Forall (fun c => isDigit c = true) ip)
    by apply digits_digits.
  destruct (processWidthInput_decimal
              ((ip ++ match fs with
                      | [] => []
                      | _ :: _ => decimalSeparator l :: fs
                      end) ++ [APOSTROPHE]) ip fs) as [x [E Hx]];
    try assumption.
  - intros H. apply app_eq_nil in H. destruct H as [_ H]. discriminate.
  - now apply normalize_decimal.
  - intros H. apply app_eq_nil in H. destruct H as [H _].
    exact (digits_nonempty _ H).
  - exists x. split; [exact E|].
    rewrite digitsValue_app in Hx. unfold ip in Hx at 1.
    rewrite digits_value in Hx.
    rewrite (decimal_value x _ _ _ _ j Hx Hv Hj).
    replace (Z.of_N (n / 1000) * 1000 + Z.of_N (n mod 1000))%Z
      with (Z.of_N n); [now rewrite Hn|].
    rewrite N2Z.inj_div, N2Z.inj_mod. change (Z.of_N 1000) with 1000%Z.
    pose proof (Z.div_mod (Z.of_N n) 1000). lia.
Qed.

(** X9: a width that is a whole number of thousandths below 1000 is read back
    from its IMPERIAL text as the same width: neither the rounding of the
    format nor the glyph of a vulgar fraction changes it.  The locale has a
    period or a comma as its decimal separator. *)
Theorem imperial_thousandths_read_back :
  forall (l : Locale) (q : Q) (k : Z),
    decimalSeparator l = PERIOD \/ decimalSeparator l = COMMA ->
    (q == k # 1000)%Q -> (0 <= k < 1000000)%Z ->
    exists r,
      processWidthInput (Some (prettifyWidth l (Fin q) IMPERIAL false)) IMPERIAL
      = Return (Num r)
      /\ sameValue (Fin q) r.
Proof.
  intros l q k Hdec Hq Hk.
  assert (H0 : (0 <= Qnum q)%Z).
  { unfold Qeq in Hq. cbn [Qnum Qden] in Hq.
    change (Z.pos 1000) with 1000%Z in Hq. nia. }
  unfold prettifyWidth.
  change (unitsIs IMPERIAL SETTINGS_UNITS_IMPERIAL) with true. cbv iota.
  unfold getImperialMeasurementWithVulgarFractions.
  destruct (lookup _ IMPERIAL_VULGAR_FRACTIONS) as [g|] eqn:Eg.
  - cbn [floor] in *. set (fl := Qfloor q) in *.
    assert (Efl : fl = (k / 1000)%Z)
      by (unfold fl; rewrite (Qfloor_comp _ _ Hq); reflexivity).
    assert (Hfl : (0 <= fl < 1000)%Z).
    { rewrite Efl. split; [apply Z.div_pos; lia|].
      apply Z.div_lt_upper_bound; lia. }
    unfold sub, neg, add in Eg.
    assert (Er : (q + Qred (- inject_Z fl) == (k mod 1000) # 1000)%Q).
    { rewrite Qred_correct, Hq, Efl. unfold Qeq.
      cbn [inject_Z Qplus Qopp Qnum Qden].
      pose proof (Z.div_mod k 1000). lia. }
    destruct (remainder_glyph _ (k mod 1000) g
                (Z.mod_pos_bound k 1000 eq_refl) Er Eg) as [key [Hin Hkey]].
    destruct (glyph_text_value l fl key g Hfl Hin) as [x [E Hx]].
    exists (Fin x). split; [exact E|].
    unfold sameValue. rewrite Hx, Hkey, Qred_correct. ring.
  - destruct (truthy (Fin q)) eqn:Ht.
    + destruct (decimal_text_value l q Hdec H0) as [x [E Hx]];
        try assumption.
      { rewrite (scaled_exact q k Hq). lia. }
      exists (Fin x). split; [exact E|].
      unfold sameValue. now rewrite Hx, (scaled_exact q k Hq).
    + exists (ofZ 0). unfold stringifyMeasurementValue.
      change (Some SETTINGS_UNITS_IMPERIAL) with IMPERIAL. rewrite Ht.
      split; [vm_compute; reflexivity|].
      cbn [truthy] in Ht. apply negb_false_iff in Ht.
      unfold isZero in Ht. apply Z.eqb_eq in Ht.
      unfold sameValue, ofZ. change (inject_Z 0) with 0%Q.
      unfold Qeq. cbn [Qnum Qden]. lia.
Qed.

Lemma imperial_thousandths_read_back_witness :
  exists r,
    processWidthInput
      (Some (prettifyWidth en_US (Fin (41 # 8)) IMPERIAL false)) IMPERIAL
    = Return (Num r)
    /\ sameValue (Fin (41 # 8)) r.
Proof.
  apply (imperial_thousandths_read_back en_US (41 # 8) 5125).
  - left. reflexivity.
  - reflexivity.
  - lia.
Defined.

(* ================================================================== *)
(** ** Widths of a thousand and more *)

Lemma digitsValue_bound (s : jsstring) :
  Forall (fun c => isDigit c = true) s ->
  (0 <= digitsValue s < 10 ^ Z.of_nat (length s))%Z.
Proof.
  induction s as [|d s IH] using rev_ind; intros H.
  - cbn. lia.
  - apply Forall_app in H. destruct H as [Hs Hd]. inversion Hd as [|? ? Hd' _].
    apply isDigit_spec in Hd'. specialize (IH Hs).
    rewrite digitsValue_app, length_app. cbn [length].
    change (digitsValue [d]) with (0 * 10 + (Z.of_N d - 48))%Z.
    change (10 ^ Z.of_nat 1)%Z with 10%Z.
    replace (Z.of_nat (length s + 1)) with (Z.of_nat (length s) + 1)%Z by lia.
    rewrite Z.pow_add_r by lia. change (10 ^ 1)%Z with 10%Z. lia.
Qed.

(** Four to six digits are written in two groups. *)
Lemma group_two (sep : jschar) (s : jsstring) :
  (3 < length s <= 6)%nat ->
  group sep s
  = firstn (length s - 3) s ++ sep :: skipn (length s - 3) s.
Proof.
  intros H. unfold group.
  remember (rev s) as t eqn:Et.
  assert (Es : s = rev t) by (subst t; symmetry; apply rev_involutive).
  clear Et. subst s. rewrite length_rev in *.
  destruct t as [|a [|b [|c r]]]; cbn [length] in H; try lia.
  assert (Hr : groupRev sep (a :: b :: c :: r) = a :: b :: c :: sep :: r).
  { destruct r as [|d [|e [|f [|x r]]]]; cbn [length] in H; try lia;
      reflexivity. }
  rewrite Hr.
  change (a :: b :: c :: sep :: r) with ([a; b; c] ++ sep :: r).
  change (a :: b :: c :: r) with ([a; b; c] ++ r).
  rewrite !rev_app_distr, length_app.
  change (rev (sep :: r)) with (rev r ++ [sep]).
  change (rev [a; b; c]) with [c; b; a].
  replace (length [a; b; c] + length r - 3)%nat with (length (rev r) + 0)%nat
    by (rewrite length_rev; cbn [length]; lia).
  rewrite firstn_app_2, skipn_app, Nat.add_comm, Nat.add_sub.
  rewrite skipn_all2 by lia.
  cbn [firstn skipn app]. rewrite app_nil_r, <- app_assoc. reflexivity.
Qed.

Lemma integer_has_no_glyph (n : Z) :
  lookup (substr 1 (toString (sub (ofZ n) (floor (ofZ n)))))
    IMPERIAL_VULGAR_FRACTIONS = None.
Proof.
  unfold ofZ. cbn [floor]. unfold sub, neg, add.
  rewrite (Qred_complete _ 0); [reflexivity|].
  rewrite !Qred_correct, Qfloor_Z. ring.
Qed.

(** A whole number from 1000 to 999999 is formatted as two groups of
    digits. *)
Lemma stringify_thousands (l : Locale) (n : Z) :
  (1000 <= n < 1000000)%Z ->
  exists ip fp,
    stringifyMeasurementValue l (ofZ n) IMPERIAL
    = ip ++ groupSeparator l :: fp
    /\ Forall (fun c => isDigit c = true) ip
    /\ Forall (fun c => isDigit c = true) fp
    /\ ip <> [] /\ length fp = 3%nat
    /\ digitsValue (ip ++ fp) = n.
Proof.
  intros Hn. unfold stringifyMeasurementValue, ofZ.
  replace (truthy (Fin (inject_Z n))) with true
    by (symmetry; cbn [truthy]; unfold isZero; cbn [inject_Z Qnum];
        apply negb_true_iff, Z.eqb_neq; lia).
  cbn [negb]. change (unitsIs IMPERIAL SETTINGS_UNITS_IMPERIAL) with true.
  cbv iota. change IMPERIAL_PRECISION with 3%nat. unfold format.
  replace (isNegative (inject_Z n)) with false
    by (symmetry; apply Z.ltb_ge; cbn [inject_Z Qnum]; lia).
  rewrite Qabs_nonneg_num by (cbn [inject_Z Qnum]; lia).
  assert (Es : scaled (inject_Z n) (Z.of_nat 3) = (n * 1000)%Z)
    by (unfold scaled; cbn [Z.of_nat Z.leb Z.compare inject_Z Qnum Qden];
        change (10 ^ 3)%Z with 1000%Z; apply roundDiv_one).
  rewrite Es. change (10 ^ N.of_nat 3)%N with 1000%N.
  replace (Z.to_N (n * 1000)) with (Z.to_N n * 1000)%N by lia.
  rewrite N.div_mul, N.Div0.mod_mul by discriminate.
  change (stripZeros (padLeft 3 (digits 0))) with (@nil N).
  cbn [app]. rewrite app_nil_r.
  set (ds := digits (Z.to_N n)).
  assert (Hd : Forall (fun c => isDigit c = true) ds) by apply digits_digits.
  assert (Hv : digitsValue ds = n)
    by (unfold ds; rewrite digits_value; lia).
  assert (Hlen : (3 < length ds <= 6)%nat).
  { split.
    - pose proof (digitsValue_bound ds Hd) as Hb. rewrite Hv in Hb.
      destruct (Nat.le_gt_cases (length ds) 3) as [Hle|]; [|assumption].
      assert (10 ^ Z.of_nat (length ds) <= 10 ^ 3)%Z
        by (apply Z.pow_le_mono_r; lia).
      change (10 ^ 3)%Z with 1000%Z in *. lia.
    - apply digitsFuel_length. change (10 ^ N.of_nat 6)%N with 1000000%N.
      lia. }
  rewrite (group_two _ ds Hlen).
  rewrite <- (firstn_skipn (length ds - 3) ds) in Hd, Hv.
  apply Forall_app in Hd. destruct Hd as [Hip Hfp].
  exists (firstn (length ds - 3) ds), (skipn (length ds - 3) ds).
  repeat split; try assumption.
  - intros E. apply (f_equal (@length _)) in E.
    rewrite length_firstn in E. cbn [length] in E. lia.
  - rewrite length_skipn. lia.
Qed.

(** X10: the group separator is read as a decimal point: under the locale
    en-US, which writes a comma between groups of three digits, the IMPERIAL
    text of a whole width from 1000 to 999999 reads back as a thousandth of
    the width. *)
Theorem group_separator_is_read_as_decimal_point :
  forall (n : Z),
    (1000 <= n < 1000000)%Z ->
    exists x,
      processWidthInput
        (Some (prettifyWidth en_US (ofZ n) IMPERIAL false)) IMPERIAL
      = Return (Num (Fin x))
      /\ (x == n # 1000)%Q.
Proof.
  intros n Hn. unfold prettifyWidth.
  change (unitsIs IMPERIAL SETTINGS_UNITS_IMPERIAL) with true. cbv iota.
  unfold getImperialMeasurementWithVulgarFractions.
  rewrite integer_has_no_glyph.
  change (Some SETTINGS_UNITS_IMPERIAL) with IMPERIAL.
  destruct (stringify_thousands en_US n Hn)
    as [ip [fp [-> [Hip [Hfp [Hi [Hl Hv]]]]]]].
  change (groupSeparator en_US) with COMMA.
  destruct (processWidthInput_decimal
              ((ip ++ COMMA :: fp) ++ [APOSTROPHE]) ip fp)
    as [x [E Hx]]; try assumption.
  - intros H. apply app_eq_nil in H. destruct H as [_ H]. discriminate.
  - destruct fp as [|f fp']; [discriminate|].
    apply (normalize_decimal COMMA ip (f :: fp'));
      [tauto | assumption | assumption].
  - intros H. apply app_eq_nil in H. now destruct H.
  - exists x. split; [exact E|].
    rewrite Hx, Hv, Hl. change (Qpower 10 (0 - Z.of_nat 3)) with (1 # 1000)%Q.
    unfold Qeq. cbn [inject_Z Qmult Qnum Qden]. lia.
Qed.

Lemma group_separator_is_read_as_decimal_point_witness :
  exists x,
    processWidthInput
      (Some (prettifyWidth en_US (ofZ 1234) IMPERIAL false)) IMPERIAL
    = Return (Num (Fin x))
    /\ (x == 1234 # 1000)%Q.
Proof.
  apply group_separator_is_read_as_decimal_point. lia.
Defined.

(* ================================================================== *)
(** ** Numbers without a unit *)

(** No unit of the table ends a string of digits and periods. *)
Lemma findConversion_numeric (s : jsstring) :
  Forall (fun c => isDigit c = true \/ c = PERIOD) s ->
  findConversion s = None.
Proof.
  intros Hs. rewrite findConversion_rev.
  assert (Hr : Forall (fun c => isDigit c = true \/ c = PERIOD) (rev s))
    by (apply Forall_rev; exact Hs).
  destruct (rev s) as [|d [|c r]].
  - reflexivity.
  - unfold WIDTH_INPUT_CONVERSION. cbn [find text]. closed_lists.
    cbn [matchPrefix]. rewrite !andb_false_r. reflexivity.
  - inversion Hr as [|? ? Hd Hr']. inversion Hr' as [|? ? Hc _]. subst.
    assert (Hlit : forall x, isDigit x = false -> (x =? PERIOD)%N = false ->
                             forall y, isDigit y = true \/ y = PERIOD ->
                                       (y =? x)%N = false).
    { intros x Hx Hp y [Hy| ->].
      - now apply digit_differs.
      - now rewrite N.eqb_sym. }
    unfold WIDTH_INPUT_CONVERSION. cbn [find text]. closed_lists.
    cbn [matchPrefix matchAtom].
    repeat match goal with
           | |- context [N.eqb d ?x] => rewrite (Hlit x eq_refl eq_refl d Hd)
           | |- context [N.eqb c ?x] => rewrite (Hlit x eq_refl eq_refl c Hc)
           end.
    cbn [andb]. rewrite ?andb_false_r. reflexivity.
Qed.

(** X11: a decimal number without a unit is taken in the unit of the unit
    system: the result is the product of the number and 1 under IMPERIAL,
    and the product of the number and 1 / (30 / 100) under METRIC; no unit of
    the table matches a string of digits and periods. *)
Theorem unitless_decimal_uses_unit_system :
  forall (ip fp : jsstring),
    Forall (fun c => isDigit c = true) ip ->
    Forall (fun c => isDigit c = true) fp ->
    ip ++ fp <> [] ->
    processWidthInput (Some (decimalText ip fp)) IMPERIAL
    = Return (Num (mul (parseFloat (decimalText ip fp)) (ofZ 1)))
    /\ processWidthInput (Some (decimalText ip fp)) METRIC
       = Return (Num (mul (parseFloat (decimalText ip fp))
                          (div (ofZ 1) IMPERIAL_METRIC_MULTIPLIER))).
Proof.
  intros ip fp Hip Hfp Hne.
  assert (Hf : findConversion (decimalText ip fp ++ []) = None).
  { apply findConversion_numeric. rewrite app_nil_r. unfold decimalText.
    apply Forall_app. split.
    - revert Hip. apply Forall_impl. auto.
    - destruct fp as [|f fp']; [constructor|].
      constructor; [now right|]. revert Hfp. apply Forall_impl. auto. }
  assert (Hin : decimalText ip fp <> [])
    by (now apply decimalText_nonempty).
  assert (Hnorm : normalize (decimalText ip fp) = decimalText ip fp ++ []).
  { rewrite app_nil_r. apply normalize_inert. now apply inert_decimalText. }
  split.
  - apply (processWidthInput_times _ ip fp []); try assumption;
      try reflexivity.
    + now rewrite Hf.
    + exists 1%Q. split; reflexivity.
  - apply (processWidthInput_times _ ip fp []); try assumption;
      try reflexivity.
    + now rewrite Hf.
    + exists (10 # 3). split; reflexivity.
Qed.

Lemma unitless_decimal_uses_unit_system_witness :
  processWidthInput (Some (js "7")) IMPERIAL
  = Return (Num (mul (parseFloat (js "7")) (ofZ 1)))
  /\ processWidthInput (Some (js "7")) METRIC
     = Return (Num (mul (parseFloat (js "7"))
                        (div (ofZ 1) IMPERIAL_METRIC_MULTIPLIER))).
Proof.
  apply (unitless_decimal_uses_unit_system (js "7") []).
  - repeat constructor.
  - constructor.
  - discriminate.
Defined.
